(** * PFT_DriverLog: the ingestion and reporting core of [server.js]

    A shallow embedding of the parts of [server.js] that carry the program's
    invariants:

    - the schema: the tables [logs] and [stops], the foreign key of
      [stops.log_id] and its cascade;
    - the ingestion handler [app.post("/api/logs")];
    - the three read paths [app.get("/admin")],
      [app.get("/admin/export/daily_logs.csv")] and
      [app.get("/admin/export/daily_stops.csv")], with [sendCsv];
    - the middleware [requireAdmin].

    Conventions.
    - A JavaScript number is an IEEE 754 binary64 value: Rocq's primitive
      [float].
    - Text is over the ASCII range, one [ascii] per character.
    - A table is the list of its rows, oldest first.  A row holds what a
      [SELECT] reads back: a string in a TEXT column, a number in a REAL or
      INTEGER column, NULL as [None].  SQLite keeps no NaN (it stores NULL),
      gives [-0] back as [0], and keeps a number given to a TEXT column as
      the text of that number.
    - The driver reads an array among the arguments of [run] as a list of
      parameters and an object as a holder of named parameters; neither is
      followed: [run] answers [Unmodelled] there.
    - The clock is a parameter of the ingestion handler: [now] and [today].
    - The definitions come first, the properties after them. *)

From Stdlib Require Import ZArith List String Ascii Bool Floats Lia.
From Stdlib Require Import Sorting.Sorted Sorting.Permutation.
From Stdlib Require Structures.OrderedTypeEx.
Import ListNotations.

Local Open Scope string_scope.
Local Open Scope Z_scope.

(* ================================================================== *)
(** * JavaScript values *)

(** The values a parsed request body is made of, and [undefined]. *)
#[warnings="-register-all"] Inductive jsval : Type :=
| JUndefined
| JNull
| JBool (b : bool)
| JNum (x : float)
| JStr (s : string)
| JArr (items : list jsval)
| JObj (fields : list (string * jsval)).

(** [ToBoolean]: the falsy values are [undefined], [null], [false], [0],
    [-0], [NaN] and the empty string. *)
Definition ToBoolean (v : jsval) : bool :=
  match v with
  | JUndefined | JNull => false
  | JBool b => b
  | JNum x => negb (PrimFloat.eqb x 0 || PrimFloat.is_nan x)
  | JStr s => negb (s =? "")%string
  | JArr _ | JObj _ => true
  end.

(** [a || b] *)
Definition jor (a b : jsval) : jsval := if ToBoolean a then a else b.

(** [v === ""] *)
Definition is_empty_string (v : jsval) : bool :=
  match v with JStr s => (s =? "")%string | _ => false end.


Fixpoint lookup (k : string) (fields : list (string * jsval)) : option jsval :=
  match fields with
  | [] => None
  | (k', v) :: rest => if (k =? k')%string then Some v else lookup k rest
  end.

(** [o.k] on a value that is neither [null] nor [undefined]: the own
    property of an object, [undefined] otherwise (none of the names read by
    the handlers is a member of a prototype). *)
Definition prop (o : jsval) (k : string) : jsval :=
  match o with
  | JObj fields => match lookup k fields with Some v => v | None => JUndefined end
  | _ => JUndefined
  end.

Definition nullish (v : jsval) : bool :=
  match v with JUndefined | JNull => true | _ => false end.

(* ------------------------------------------------------------------ *)
(** ** How a call ends *)

Inductive exn : Type :=
| TypeError      (* a property of [null] or [undefined] was read, an object
                    has no primitive value, or an argument of [run] is of no
                    type the driver binds *)
| SqliteError.   (* a constraint refused the row *)

(** How a call ends: with a value, with an exception, or at an argument of
    [run] that this development does not follow into the driver. *)
Inductive outcome (A : Type) : Type :=
| Returns (a : A)
| Throws (e : exn)
| Unmodelled.
Arguments Returns {A} a.
Arguments Throws {A} e.
Arguments Unmodelled {A}.

Definition obind {A B} (c : outcome A) (k : A -> outcome B) : outcome B :=
  match c with
  | Returns a => k a
  | Throws e => Throws e
  | Unmodelled => Unmodelled
  end.

Declare Scope js_scope.
Delimit Scope js_scope with js.
Notation "x <~ c ;; k" := (obind c (fun x => k))
  (at level 61, c at next level, right associativity) : js_scope.
Local Open Scope js_scope.

(* ------------------------------------------------------------------ *)
(** ** [Number(v)] *)

(** The double nearest to [m * 2^e] (ties to even). *)
Definition round_binary (m e : Z) : float :=
  SF2Prim (binary_normalize 53 1024 m e false).

(** The double nearest to [m * 10^e], [m > 0]; [neg] gives the sign. *)
Definition round_decimal (neg : bool) (m e : Z) : float :=
  let sgn (z : Z) := if neg then - z else z in
  if m =? 0 then (if neg then (-0)%float else 0%float)
  else if 0 <=? e then round_binary (sgn (m * 10 ^ e)) 0
  else
    let d := 10 ^ (- e) in
    let s := Z.max 0 (64 + Z.log2 d - Z.log2 m) in
    let n := m * 2 ^ s in
    let sticky := if n mod d =? 0 then 0 else 1 in
    round_binary (sgn (2 * (n / d) + sticky)) (- (s + 1)).

Definition is_white_space (c : ascii) : bool :=
  let n := Z.of_nat (nat_of_ascii c) in
  ((9 <=? n) && (n <=? 13)) || (n =? 32).

Fixpoint trim_start (s : string) : string :=
  match s with
  | String c rest => if is_white_space c then trim_start rest else s
  | EmptyString => s
  end.

Fixpoint trim_end (s : string) : string :=
  match s with
  | EmptyString => EmptyString
  | String c rest =>
      match trim_end rest with
      | EmptyString => if is_white_space c then EmptyString else String c EmptyString
      | rest' => String c rest'
      end
  end.

(** The value of a digit in the given radix. *)
Definition digit_value (radix : Z) (c : ascii) : option Z :=
  let n := Z.of_nat (nat_of_ascii c) in
  let v := if (48 <=? n) && (n <=? 57) then n - 48
           else if (97 <=? n) && (n <=? 102) then n - 87
           else if (65 <=? n) && (n <=? 70) then n - 55
           else radix in
  if v <? radix then Some v else None.

(** Reads the longest run of digits at the head of [s]: the run's value
    continued from [acc], its length, and the rest of the string. *)
Fixpoint read_digits (radix : Z) (s : string) (acc : Z) (len : Z) : Z * Z * string :=
  match s with
  | String c rest =>
      match digit_value radix c with
      | Some v => read_digits radix rest (acc * radix + v) (len + 1)
      | None => (acc, len, s)
      end
  | EmptyString => (acc, len, s)
  end.

(** A whole string of digits, at least one. *)
Definition all_digits (radix : Z) (s : string) : option Z :=
  match read_digits radix s 0 0 with
  | (v, len, EmptyString) => if 0 <? len then Some v else None
  | _ => None
  end.

Definition read_sign (s : string) : bool * string :=
  match s with
  | String "-" rest => (true, rest)
  | String "+" rest => (false, rest)
  | _ => (false, s)
  end.

(** [StrDecimalLiteral] without its sign: digits, an optional fraction, an
    optional exponent; [None] when [s] is not one. *)
Definition decimal_literal (neg : bool) (s : string) : option float :=
  let '(int_part, int_len, after_int) := read_digits 10 s 0 0 in
  let '(mant, frac_len, after_frac) :=
    match after_int with
    | String "." rest => read_digits 10 rest int_part 0
    | _ => (int_part, 0, after_int)
    end in
  if int_len + frac_len =? 0 then None
  else
    match after_frac with
    | EmptyString => Some (round_decimal neg mant (- frac_len))
    | String c rest =>
        if (c =? "e")%char || (c =? "E")%char then
          let '(eneg, digits) := read_sign rest in
          match all_digits 10 digits with
          | Some e => Some (round_decimal neg mant ((if eneg then - e else e) - frac_len))
          | None => None
          end
        else None
    end.

(** [StringToNumber]: white space is trimmed; the empty string is [0]; a
    string that is not a numeric literal is [NaN]. *)
Definition StringToNumber (s : string) : float :=
  let t := trim_end (trim_start s) in
  let unsigned_int (radix : Z) (digits : string) :=
    match all_digits radix digits with
    | Some v => round_binary v 0
    | None => nan
    end in
  match t with
  | EmptyString => 0%float
  | String "0" (String "x" digits) | String "0" (String "X" digits) => unsigned_int 16 digits
  | String "0" (String "o" digits) | String "0" (String "O" digits) => unsigned_int 8 digits
  | String "0" (String "b" digits) | String "0" (String "B" digits) => unsigned_int 2 digits
  | _ =>
      let '(neg, body) := read_sign t in
      if (body =? "Infinity")%string then (if neg then neg_infinity else infinity)
      else match decimal_literal neg body with
           | Some x => x
           | None => nan
           end
  end.

(** The number [Number(v)] gives when the conversion of [v] to a primitive
    does not throw.  An array is converted through its [join(",")]: the empty
    array gives the empty string, an array of one element that element's
    string, and a longer one a string with a comma, which is no numeric
    literal.  An object gives ["[object Object]"]. *)
Fixpoint number_value (v : jsval) : float :=
  match v with
  | JUndefined => nan
  | JNull => 0%float
  | JBool b => if b then 1%float else 0%float
  | JNum x => x
  | JStr s => StringToNumber s
  | JArr [] => 0%float
  | JArr [item] =>
      match item with
      | JUndefined | JNull => 0%float
      | JBool _ => nan
      | JNum x => if PrimFloat.eqb x 0 then 0%float else x
      | _ => number_value item
      end
  | JArr _ => nan
  | JObj _ => nan
  end.

(** Whether the conversion of [v] to a primitive throws: an object of a
    parsed body whose own property [toString] hides the inherited method has
    no primitive value (the property is no function, and the inherited
    [valueOf] gives the object back); an array asks each of its elements. *)
Fixpoint to_string_throws (v : jsval) : bool :=
  match v with
  | JObj fields =>
      match lookup "toString" fields with Some _ => true | None => false end
  | JArr items => existsb to_string_throws items
  | _ => false
  end.

(** [Number(v)] *)
Definition Number (v : jsval) : outcome float :=
  if to_string_throws v then Throws TypeError else Returns (number_value v).

(* ================================================================== *)
(** * The schema: [CREATE TABLE logs], [CREATE TABLE stops] *)

Module Logs.
Record row : Type := mk {
  id : Z;
  created_at : string;
  date : string;
  driver_name : option string;
  driver_email : option string;
  cc_email : option string;
  truck_num : option string;
  start_miles : option float;
  end_miles : option float;
  start_time : option string;
  end_time : option string;
  rate_mile : option float;
  rate_hour : option float;
  total_miles : option float;
  total_time : option string;
  total_detention : option string;
  total_value_hours : option float;
  gross_pay : option float
}.
Definition with_id (i : Z) (r : row) : row :=
  mk i (created_at r) (date r) (driver_name r) (driver_email r) (cc_email r)
     (truck_num r) (start_miles r) (end_miles r) (start_time r) (end_time r)
     (rate_mile r) (rate_hour r) (total_miles r) (total_time r)
     (total_detention r) (total_value_hours r) (gross_pay r).
End Logs.

Module Stops.
Record row : Type := mk {
  id : Z;
  log_id : Z;
  stop_no : option float;
  type : option string;
  location : option string;
  arrive : option string;
  depart : option string;
  duration : option string;
  detention : option string;
  value_hours : option float;
  grain_phase : option string
}.
Definition with_id (i : Z) (r : row) : row :=
  mk i (log_id r) (stop_no r) (type r) (location r) (arrive r) (depart r)
     (duration r) (detention r) (value_hours r) (grain_phase r).
End Stops.

(** The database file: the two tables, and for each the largest id it ever
    gave out ([AUTOINCREMENT]). *)
Record db : Type := mkdb {
  logs : list Logs.row;
  stops : list Stops.row;
  logs_seq : Z;
  stops_seq : Z
}.

Definition empty_db : db := mkdb [] [] 0 0.

Definition log_exists (i : Z) (s : db) : bool :=
  existsb (fun l => Logs.id l =? i) (logs s).

(** [INSERT INTO logs]: the row gets the next id. *)
Definition insert_log (r : Logs.row) (s : db) : db * Z :=
  let i := logs_seq s + 1 in
  (mkdb (logs s ++ [Logs.with_id i r]) (stops s) i (stops_seq s), i).

(** [INSERT INTO stops]: refused when [log_id] names no row of [logs]
    ([FOREIGN KEY (log_id) REFERENCES logs(id)]; the driver opens the file
    with foreign keys enforced). *)
Definition insert_stop (r : Stops.row) (s : db) : option db :=
  if log_exists (Stops.log_id r) s then
    let i := stops_seq s + 1 in
    Some (mkdb (logs s) (stops s ++ [Stops.with_id i r]) (logs_seq s) i)
  else None.

(** [DELETE FROM logs WHERE id = i], with [ON DELETE CASCADE] on [stops]. *)
Definition delete_log (i : Z) (s : db) : db :=
  mkdb (filter (fun l => negb (Logs.id l =? i)) (logs s))
       (filter (fun t => negb (Stops.log_id t =? i)) (stops s))
       (logs_seq s) (stops_seq s).

(** What the storage layer lets happen to the file. *)
Inductive storage_step : db -> db -> Prop :=
| step_insert_log r s : storage_step s (fst (insert_log r s))
| step_insert_stop r s s' : insert_stop r s = Some s' -> storage_step s s'
| step_delete_log i s : storage_step s (delete_log i s).

Inductive reachable : db -> Prop :=
| reachable_empty : reachable empty_db
| reachable_step s s' : reachable s -> storage_step s s' -> reachable s'.

(** The invariants of a database file. *)
Definition ids_below_seq (s : db) : Prop :=
  Forall (fun l => Logs.id l <= logs_seq s) (logs s).

Definition referential_integrity (s : db) : Prop :=
  forall t, In t (stops s) ->
    List.length (filter (fun l => Logs.id l =? Stops.log_id t) (logs s)) = 1%nat.

(* ================================================================== *)
(** * Statements and transactions *)

(** A computation on the database file. *)
Definition M (A : Type) : Type := db -> db * outcome A.

Definition ret {A} (a : A) : M A := fun s => (s, Returns a).

Definition bind {A B} (c : M A) (k : A -> M B) : M B :=
  fun s =>
    match c s with
    | (s', Returns a) => k a s'
    | (s', Throws e) => (s', Throws e)
    | (s', Unmodelled) => (s', Unmodelled)
    end.

Definition lift {A} (c : outcome A) : M A := fun s => (s, c).

Notation "x <- c ;; k" := (bind c (fun x => k))
  (at level 61, c at next level, right associativity) : js_scope.

(** [db.transaction(fn)]: [BEGIN], the body, [COMMIT]; when the body throws,
    [ROLLBACK] and the exception goes on. *)
Definition transaction {A} (body : M A) : M A :=
  fun s =>
    match body s with
    | (s', Returns a) => (s', Returns a)
    | (_, Throws e) => (s, Throws e)
    | (_, Unmodelled) => (s, Unmodelled)
    end.

(** [for (const x of items) body(x)] *)
Fixpoint for_of {A} (items : list A) (body : A -> M unit) : M unit :=
  match items with
  | [] => ret tt
  | x :: rest => _ <- body x ;; for_of rest body
  end.

(* ------------------------------------------------------------------ *)
(** ** What SQLite keeps of a bound number *)

(** A REAL or INTEGER column given a number: NaN is stored as NULL, and [-0]
    is read back as [0]. *)
Definition store_real (x : float) : option float :=
  if PrimFloat.is_nan x then None
  else if PrimFloat.eqb x 0 then Some 0%float
  else Some x.

(** The last [k] decimal digits of [n], before [acc]. *)
Fixpoint decimal_digits (k : nat) (n : Z) (acc : string) : string :=
  match k with
  | O => acc
  | S k' =>
      decimal_digits k' (n / 10)
        (String (ascii_of_nat (48 + Z.to_nat (n mod 10))) acc)
  end.

(** Whether [10^e <= a / b], for positive [a] and [b]. *)
Definition power_of_ten_le (e a b : Z) : bool :=
  if 0 <=? e then b * 10 ^ e <=? a else b <=? a * 10 ^ (- e).

(** The largest [e] with [10^e <= a / b], looked for from [e] upwards. *)
Fixpoint decimal_exponent (fuel : nat) (e a b : Z) : Z :=
  match fuel with
  | O => e
  | S fuel' =>
      if power_of_ten_le (e + 1) a b then decimal_exponent fuel' (e + 1) a b else e
  end.

Fixpoint strip_trailing_zeros (s : string) : string :=
  match s with
  | EmptyString => EmptyString
  | String c rest =>
      match strip_trailing_zeros rest with
      | EmptyString => if (c =? "0")%char then EmptyString else String c EmptyString
      | rest' => String c rest'
      end
  end.

Fixpoint zeros (n : nat) : string :=
  match n with
  | O => EmptyString
  | S n' => String "0" (zeros n')
  end.

Definition or_zero_digit (s : string) : string :=
  match s with EmptyString => "0" | _ => s end.

(** The text of [a / b] in SQLite's format [%!.15g]: fifteen significant
    digits, the last one rounded (half up), the zeros at the end removed, a
    point and at least one digit after it, and an exponent of two digits or
    more when the decimal exponent is below -4 or above 14. *)
Definition format_15g (a b : Z) : string :=
  let guess := (Z.log2 a - Z.log2 b) * 30103 / 100000 - 2 in
  let e0 := decimal_exponent 6 guess a b in
  let n0 :=
    if 0 <=? 14 - e0 then (2 * a * 10 ^ (14 - e0) + b) / (2 * b)
    else (2 * a + b * 10 ^ (e0 - 14)) / (2 * b * 10 ^ (e0 - 14)) in
  let '(n, e) := if 10 ^ 15 <=? n0 then (n0 / 10, e0 + 1) else (n0, e0) in
  let digits := or_zero_digit (strip_trailing_zeros (decimal_digits 15 n "")) in
  if (e <? -4) || (14 <? e) then
    substring 0 1 digits ++ "."
    ++ or_zero_digit (substring 1 (String.length digits - 1) digits)
    ++ "e" ++ (if e <? 0 then "-" else "+")
    ++ (if Z.abs e <? 100 then decimal_digits 2 (Z.abs e) ""
        else decimal_digits 3 (Z.abs e) "")
  else if e <? 0 then
    "0." ++ zeros (Z.to_nat (- e - 1)) ++ digits
  else
    let int_len := Z.to_nat (e + 1) in
    substring 0 int_len (digits ++ zeros int_len) ++ "."
    ++ or_zero_digit (substring int_len (String.length digits - int_len) digits).

(** The text a TEXT column keeps of a number: the column's affinity turns
    the REAL into text. *)
Definition sqlite_real_text (x : float) : string :=
  match Prim2SF x with
  | S754_nan => "NaN"
  | S754_infinity s => if s then "-Inf" else "Inf"
  | S754_zero _ => "0.0"
  | S754_finite s m e =>
      (if s then "-" else "")
      ++ (if 0 <=? e then format_15g (Zpos m * 2 ^ e) 1
          else format_15g (Zpos m) (2 ^ (- e)))
  end.

(** Binding an argument to a TEXT column.  The driver binds a string as
    text, a number as a REAL, [null] and [undefined] as NULL, and refuses a
    boolean. *)
Definition bind_text (v : jsval) : outcome (option string) :=
  match v with
  | JStr s => Returns (Some s)
  | JNum x =>
      Returns (if PrimFloat.is_nan x then None else Some (sqlite_real_text x))
  | JNull | JUndefined => Returns None
  | JBool _ => Throws TypeError
  | JArr _ | JObj _ => Unmodelled
  end.

(** Binding an argument to a REAL or INTEGER column, for the arguments the
    handler gives to these columns: a number or [null]. *)
Definition bind_real (v : jsval) : outcome (option float) :=
  match v with
  | JNum x => Returns (store_real x)
  | JNull | JUndefined => Returns None
  | JBool _ => Throws TypeError
  | JStr _ | JArr _ | JObj _ => Unmodelled
  end.

(** A [NOT NULL] column. *)
Definition not_null {A} (c : option A) : outcome A :=
  match c with
  | Some a => Returns a
  | None => Throws SqliteError
  end.

(** [insLog.run(...)]: the seventeen arguments in the order of the column
    list of the [INSERT]; answers [lastInsertRowid]. *)
Definition logs_row (args : list jsval) : outcome Logs.row :=
  match args with
  | [a1; a2; a3; a4; a5; a6; a7; a8; a9; a10; a11; a12; a13; a14; a15; a16; a17] =>
      created_at <~ bind_text a1 ;;
      date <~ bind_text a2 ;;
      driver_name <~ bind_text a3 ;;
      driver_email <~ bind_text a4 ;;
      cc_email <~ bind_text a5 ;;
      truck_num <~ bind_text a6 ;;
      start_miles <~ bind_real a7 ;;
      end_miles <~ bind_real a8 ;;
      start_time <~ bind_text a9 ;;
      end_time <~ bind_text a10 ;;
      rate_mile <~ bind_real a11 ;;
      rate_hour <~ bind_real a12 ;;
      total_miles <~ bind_real a13 ;;
      total_time <~ bind_text a14 ;;
      total_detention <~ bind_text a15 ;;
      total_value_hours <~ bind_real a16 ;;
      gross_pay <~ bind_real a17 ;;
      created_at <~ not_null created_at ;;
      date <~ not_null date ;;
      Returns (Logs.mk 0 created_at date driver_name driver_email cc_email
                 truck_num start_miles end_miles start_time end_time rate_mile
                 rate_hour total_miles total_time total_detention
                 total_value_hours gross_pay)
  | _ => Unmodelled
  end.

Definition insLog_run (args : list jsval) : M Z :=
  fun s =>
    match logs_row args with
    | Returns r => let (s', i) := insert_log r s in (s', Returns i)
    | Throws e => (s, Throws e)
    | Unmodelled => (s, Unmodelled)
    end.

(** [insStop.run(logId, ...)]: [logId] and the nine other arguments. *)
Definition stops_row (logId : Z) (args : list jsval) : outcome Stops.row :=
  match args with
  | [a2; a3; a4; a5; a6; a7; a8; a9; a10] =>
      stop_no <~ bind_real a2 ;;
      type <~ bind_text a3 ;;
      location <~ bind_text a4 ;;
      arrive <~ bind_text a5 ;;
      depart <~ bind_text a6 ;;
      duration <~ bind_text a7 ;;
      detention <~ bind_text a8 ;;
      value_hours <~ bind_real a9 ;;
      grain_phase <~ bind_text a10 ;;
      Returns (Stops.mk 0 logId stop_no type location arrive depart duration
                 detention value_hours grain_phase)
  | _ => Unmodelled
  end.

Definition insStop_run (logId : Z) (args : list jsval) : M unit :=
  fun s =>
    match stops_row logId args with
    | Returns r =>
        match insert_stop r s with
        | Some s' => (s', Returns tt)
        | None => (s, Throws SqliteError)
        end
    | Throws e => (s, Throws e)
    | Unmodelled => (s, Unmodelled)
    end.

(* ================================================================== *)
(** * [app.post("/api/logs")] *)

(** The arguments of [insLog.run], evaluated from left to right; [now] is
    [dayjs().toISOString()] and [today] is [dayjs().format("YYYY-MM-DD")]. *)
Definition insLog_args (now today : string) (d : jsval) : outcome (list jsval) :=
  start_miles <~ Number (jor (prop d "start_miles") (JNum 0)) ;;
  end_miles <~ Number (jor (prop d "end_miles") (JNum 0)) ;;
  rate_mile <~ Number (jor (prop d "rate_mile") (JNum 0)) ;;
  rate_hour <~ Number (jor (prop d "rate_hour") (JNum 0)) ;;
  total_miles <~ Number (jor (prop d "total_miles") (JNum 0)) ;;
  total_value_hours <~ Number (jor (prop d "total_value_hours") (JNum 0)) ;;
  gross_pay <~ Number (jor (prop d "gross_pay") (JNum 0)) ;;
  Returns
    [ JStr now;
      jor (prop d "date") (JStr today);
      jor (prop d "driver_name") (JStr "");
      jor (prop d "driver_email") (JStr "");
      jor (prop d "cc_email") (JStr "");
      jor (prop d "truck_num") (JStr "");
      JNum start_miles;
      JNum end_miles;
      jor (prop d "start_time") (JStr "");
      jor (prop d "end_time") (JStr "");
      JNum rate_mile;
      JNum rate_hour;
      JNum total_miles;
      jor (prop d "total_time") (JStr "");
      jor (prop d "total_detention") (JStr "");
      JNum total_value_hours;
      JNum gross_pay ].

(** The arguments of [insStop.run] after [logId], for the element [s] of
    [stops]; reading a property of [null] or [undefined] throws. *)
Definition insStop_args (s : jsval) : outcome (list jsval) :=
  if nullish s then Throws TypeError
  else
    stop_no <~ Number (jor (prop s "stop_no") (JNum 0)) ;;
    value_hours <~
      (if is_empty_string (prop s "value_hours") then Returns JNull
       else x <~ Number (jor (prop s "value_hours") (JNum 0)) ;; Returns (JNum x)) ;;
    Returns
      [ JNum stop_no;
        jor (prop s "type") (JStr "");
        jor (prop s "location") (JStr "");
        jor (prop s "arrive") (JStr "");
        jor (prop s "depart") (JStr "");
        jor (prop s "duration") (JStr "");
        jor (prop s "detention") (JStr "");
        value_hours;
        jor (prop s "grain_phase") (JStr "") ].

(** [Array.isArray(d.stops) ? d.stops : []] *)
Definition stops_of (d : jsval) : list jsval :=
  match prop d "stops" with
  | JArr items => items
  | _ => []
  end.

(** The handler; it answers the [id] of [res.json({ ok: true, id })]. *)
Definition post_api_logs (now today : string) (body : jsval) : M Z :=
  let d := jor body (JObj []) in
  args <- lift (insLog_args now today d) ;;
  logId <- insLog_run args ;;
  let stops := stops_of d in
  let tx rows :=
    transaction
      (for_of rows (fun s => args <- lift (insStop_args s) ;; insStop_run logId args)) in
  _ <- tx stops ;;
  ret logId.

(* ================================================================== *)
(** * The read paths *)

(** [req.query]: each of [from], [to] and [driver] is absent or a string. *)
Record filters : Type := mkfilters {
  from : option string;
  to : option string;
  driver : option string
}.

(* ------------------------------------------------------------------ *)
(** ** The SQL the read paths use *)

(** [LIKE] folds the case of the ASCII letters. *)
Definition fold_case (c : ascii) : ascii :=
  let n := nat_of_ascii c in
  if (Nat.leb 65 n && Nat.leb n 90)%bool then ascii_of_nat (n + 32) else c.

(** [s LIKE p]: [%] stands for any run of characters, [_] for any one. *)
Fixpoint like (p s : string) {struct p} : bool :=
  match p with
  | EmptyString => match s with EmptyString => true | String _ _ => false end
  | String c p' =>
      if (c =? "%")%char then
        (fix from_some_suffix (s : string) : bool :=
           like p' s
           || match s with
              | EmptyString => false
              | String _ s' => from_some_suffix s'
              end) s
      else
        match s with
        | EmptyString => false
        | String x s' =>
            ((c =? "_")%char || (fold_case c =? fold_case x)%char) && like p' s'
        end
  end.

(** The columns the [WHERE] clauses name: of [logs] in [FROM logs], and of
    the joined [logs l] in the stop export. *)
Inductive column : Type :=
| Col_date            (* date *)
| Col_driver_name     (* driver_name *)
| Col_l_date          (* l.date *)
| Col_l_driver_name.  (* l.driver_name *)

(** One entry of [where], with its [?]. *)
Inductive clause : Type :=
| Ge (c : column)     (* c >= ? *)
| Le (c : column)     (* c <= ? *)
| Like (c : column).  (* c LIKE ? *)

Definition column_value (c : column) (l : Logs.row) : option string :=
  match c with
  | Col_date | Col_l_date => Some (Logs.date l)
  | Col_driver_name | Col_l_driver_name => Logs.driver_name l
  end.

(** A comparison with NULL is NULL. *)
Definition sql_test (test : string -> string -> bool) (a : option string) (b : string)
  : option bool :=
  match a with
  | Some x => Some (test x b)
  | None => None
  end.

Definition eval_clause (c : clause) (param : string) (l : Logs.row) : option bool :=
  match c with
  | Ge col => sql_test (fun x p => negb (String.ltb x p)) (column_value col l) param
  | Le col => sql_test String.leb (column_value col l) param
  | Like col => sql_test (fun x p => like p x) (column_value col l) param
  end.

Definition sql_and (a b : option bool) : option bool :=
  match a, b with
  | Some false, _ | _, Some false => Some false
  | Some true, Some true => Some true
  | _, _ => None
  end.

(** [where.join(" AND ")] with [params] bound in order; no clause, no
    [WHERE]. *)
Fixpoint eval_where (where_ : list clause) (params : list string) (l : Logs.row)
  : option bool :=
  match where_, params with
  | [], _ => Some true
  | c :: where', p :: params' => sql_and (eval_clause c p l) (eval_where where' params' l)
  | _ :: _, [] => None
  end.

(** A row is kept when the [WHERE] is true. *)
Definition selected (w : list clause * list string) (l : Logs.row) : bool :=
  match eval_where (fst w) (snd w) l with
  | Some true => true
  | _ => false
  end.

(** [ORDER BY]: the rows in the order [leb], rows that compare equal in the
    order they had. *)
Fixpoint insert_by {A} (leb : A -> A -> bool) (x : A) (l : list A) : list A :=
  match l with
  | [] => [x]
  | y :: rest => if leb x y then x :: l else y :: insert_by leb x rest
  end.

Definition order_by {A} (leb : A -> A -> bool) (l : list A) : list A :=
  fold_right (insert_by leb) [] l.

(** [date ASC, id ASC] *)
Definition date_id_asc (a b : Logs.row) : bool :=
  match String.compare (Logs.date a) (Logs.date b) with
  | Lt => true
  | Eq => Logs.id a <=? Logs.id b
  | Gt => false
  end.

(** [date DESC, id DESC] *)
Definition date_id_desc (a b : Logs.row) : bool :=
  match String.compare (Logs.date a) (Logs.date b) with
  | Gt => true
  | Eq => Logs.id b <=? Logs.id a
  | Lt => false
  end.

(** What a cell of a numeric column holds: no NaN, SQLite keeps NULL in its
    place. *)
Definition held (c : option float) : option float :=
  match c with
  | Some x => if PrimFloat.is_nan x then None else Some x
  | None => None
  end.

(** [stop_no ASC]: NULL first, then the numbers. *)
Definition stop_no_asc (a b : option float) : bool :=
  match held a, held b with
  | None, _ => true
  | Some _, None => false
  | Some x, Some y => negb (PrimFloat.ltb y x)
  end.

(** [l.date ASC, l.id ASC, s.stop_no ASC] *)
Definition date_id_stop_no_asc (a b : Stops.row * Logs.row) : bool :=
  match String.compare (Logs.date (snd a)) (Logs.date (snd b)) with
  | Lt => true
  | Eq =>
      if Logs.id (snd a) <? Logs.id (snd b) then true
      else if Logs.id (snd b) <? Logs.id (snd a) then false
      else stop_no_asc (Stops.stop_no (fst a)) (Stops.stop_no (fst b))
  | Gt => false
  end.

(** [FROM stops s JOIN logs l ON l.id = s.log_id] *)
Definition stops_join_logs (s : db) : list (Stops.row * Logs.row) :=
  flat_map
    (fun t => map (fun l => (t, l))
                  (filter (fun l => Logs.id l =? Stops.log_id t) (logs s)))
    (stops s).

(* ------------------------------------------------------------------ *)
(** ** Building [where] and [params] *)

Definition push (w : list clause * list string) (c : clause) (p : string)
  : list clause * list string :=
  ((fst w ++ [c])%list, (snd w ++ [p])%list).

(** [if (v) { where.push(c); params.push(param(v)); }] *)
Definition push_if (v : option string) (c : clause) (param : string -> string)
    (w : list clause * list string) : list clause * list string :=
  match v with
  | Some x => if ToBoolean (JStr x) then push w c (param x) else w
  | None => w
  end.

(** [`%${driver}%`] *)
Definition like_pattern (driver : string) : string := "%" ++ driver ++ "%".

(** The [where] and [params] of [app.get("/admin")]. *)
Definition admin_where (f : filters) : list clause * list string :=
  let w := ([], []) in
  let w := push_if (from f) (Ge Col_date) (fun x => x) w in
  let w := push_if (to f) (Le Col_date) (fun x => x) w in
  let w := push_if (driver f) (Like Col_driver_name) like_pattern w in
  w.

(** The [where] and [params] of [app.get("/admin/export/daily_logs.csv")]. *)
Definition daily_logs_where (f : filters) : list clause * list string :=
  let w := ([], []) in
  let w := push_if (from f) (Ge Col_date) (fun x => x) w in
  let w := push_if (to f) (Le Col_date) (fun x => x) w in
  let w := push_if (driver f) (Like Col_driver_name) like_pattern w in
  w.

(** The [where] and [params] of [app.get("/admin/export/daily_stops.csv")]. *)
Definition daily_stops_where (f : filters) : list clause * list string :=
  let w := ([], []) in
  let w := push_if (from f) (Ge Col_l_date) (fun x => x) w in
  let w := push_if (to f) (Le Col_l_date) (fun x => x) w in
  let w := push_if (driver f) (Like Col_l_driver_name) like_pattern w in
  w.

(* ------------------------------------------------------------------ *)
(** ** [app.get("/admin")] *)

(** A cell as the driver hands it to JavaScript. *)
Definition js_text (c : option string) : jsval :=
  match c with Some s => JStr s | None => JNull end.

Definition js_real (c : option float) : jsval :=
  match c with Some x => JNum x | None => JNull end.

(** [c || 0] for a REAL cell [c]. *)
Definition or_zero (c : option float) : float :=
  match jor (js_real c) (JNum 0) with
  | JNum x => x
  | _ => 0%float
  end.

(** [SELECT * FROM logs ${whereSQL} ORDER BY date DESC, id DESC] *)
Definition admin_rows (f : filters) (s : db) : list Logs.row :=
  order_by date_id_desc (filter (selected (admin_where f)) (logs s)).

Record stats : Type := mkstats {
  days : nat;
  miles : float;
  value : float;
  pay : float
}.

(** [rows.reduce((s, r) => s + (field(r) || 0), 0)] *)
Definition reduce_sum (field : Logs.row -> option float) (rows : list Logs.row) : float :=
  fold_left (fun s r => (s + or_zero (field r))%float) rows 0%float.

Definition admin_stats (rows : list Logs.row) : stats :=
  {| days := List.length rows;
     miles := reduce_sum Logs.total_miles rows;
     value := reduce_sum Logs.total_value_hours rows;
     pay := reduce_sum Logs.gross_pay rows |}.

(** What the handler gives to [res.render("admin", ...)]. *)
Record admin_view : Type := mkview {
  view_rows : list Logs.row;
  view_filters : string * string * string;
  view_stats : stats
}.

Definition or_empty (v : option string) : string :=
  match jor (js_text v) (JStr "") with
  | JStr s => s
  | _ => ""
  end.

Definition get_admin (f : filters) (s : db) : admin_view :=
  let rows := admin_rows f s in
  {| view_rows := rows;
     view_filters := (or_empty (from f), or_empty (to f), or_empty (driver f));
     view_stats := admin_stats rows |}.

(* ------------------------------------------------------------------ *)
(** ** The exports *)

(** The response of [sendCsv]: the two headers it sets, and the rows the
    stringifier writes, the header row first ([header: true]). *)
Record csv_response : Type := mkcsv {
  content_disposition : string;
  content_type : string;
  csv_rows : list (list jsval)
}.

Definition sendCsv (rows : list (list (string * jsval))) (columns : list string)
  : csv_response :=
  {| content_disposition := "attachment; filename=export.csv";
     content_type := "text/csv; charset=utf-8";
     csv_rows :=
       map JStr columns
       :: map (fun r => map (fun c => prop (JObj r) c) columns) rows |}.

(** [Object.keys(out[0] || {})] *)
Definition keys_of_first (out : list (list (string * jsval))) : list string :=
  match out with
  | r :: _ => map fst r
  | [] => []
  end.

(** [SELECT * FROM logs ${whereSQL} ORDER BY date ASC, id ASC] *)
Definition daily_logs_rows (f : filters) (s : db) : list Logs.row :=
  order_by date_id_asc (filter (selected (daily_logs_where f)) (logs s)).

Definition daily_logs_out (r : Logs.row) : list (string * jsval) :=
  [ ("Date", JStr (Logs.date r));
    ("Driver Name", jor (js_text (Logs.driver_name r)) (JStr ""));
    ("Driver Email", jor (js_text (Logs.driver_email r)) (JStr ""));
    ("Truck #", jor (js_text (Logs.truck_num r)) (JStr ""));
    ("Start Miles", jor (js_real (Logs.start_miles r)) (JNum 0));
    ("End Miles", jor (js_real (Logs.end_miles r)) (JNum 0));
    ("Start Time", jor (js_text (Logs.start_time r)) (JStr ""));
    ("End Time", jor (js_text (Logs.end_time r)) (JStr ""));
    ("Rate/Mile", jor (js_real (Logs.rate_mile r)) (JNum 0));
    ("Hourly Rate", jor (js_real (Logs.rate_hour r)) (JNum 0));
    ("Total Miles", jor (js_real (Logs.total_miles r)) (JNum 0));
    ("Total Time", jor (js_text (Logs.total_time r)) (JStr ""));
    ("Total Detention", jor (js_text (Logs.total_detention r)) (JStr ""));
    ("Total Value (hrs)", jor (js_real (Logs.total_value_hours r)) (JNum 0));
    ("Gross Pay", jor (js_real (Logs.gross_pay r)) (JNum 0)) ].

Definition export_daily_logs (f : filters) (s : db) : csv_response :=
  let out := map daily_logs_out (daily_logs_rows f s) in
  sendCsv out (keys_of_first out).

(** The joined rows of the stop export, in its order; the [SELECT] keeps of
    each the twelve columns [daily_stops_out] reads. *)
Definition daily_stops_rows (f : filters) (s : db) : list (Stops.row * Logs.row) :=
  order_by date_id_stop_no_asc
    (filter (fun r => selected (daily_stops_where f) (snd r)) (stops_join_logs s)).

(** [v ?? ""] for a REAL cell. *)
Definition or_empty_if_null (c : option float) : jsval :=
  match c with Some x => JNum x | None => JStr "" end.

Definition daily_stops_out (r : Stops.row * Logs.row) : list (string * jsval) :=
  let (t, l) := r in
  [ ("Date", JStr (Logs.date l));
    ("Driver Name", jor (js_text (Logs.driver_name l)) (JStr ""));
    ("Truck #", jor (js_text (Logs.truck_num l)) (JStr ""));
    ("Stop #", jor (js_real (Stops.stop_no t)) (JNum 0));
    ("Type", jor (js_text (Stops.type t)) (JStr ""));
    ("Location", jor (js_text (Stops.location t)) (JStr ""));
    ("Arrive", jor (js_text (Stops.arrive t)) (JStr ""));
    ("Depart", jor (js_text (Stops.depart t)) (JStr ""));
    ("Duration", jor (js_text (Stops.duration t)) (JStr ""));
    ("Detention", jor (js_text (Stops.detention t)) (JStr ""));
    ("Value (hrs)", or_empty_if_null (Stops.value_hours t));
    ("Grain Phase", jor (js_text (Stops.grain_phase t)) (JStr "")) ].

Definition export_daily_stops (f : filters) (s : db) : csv_response :=
  let out := map daily_stops_out (daily_stops_rows f s) in
  sendCsv out (keys_of_first out).

(** The header row the specification gives to the log export. *)
Definition daily_logs_labels : list string :=
  [ "Date"; "Driver Name"; "Driver Email"; "Truck #"; "Start Miles";
    "End Miles"; "Start Time"; "End Time"; "Rate/Mile"; "Hourly Rate";
    "Total Miles"; "Total Time"; "Total Detention"; "Total Value (hrs)";
    "Gross Pay" ].

(** The orders of the read paths, as relations between rows. *)
Definition newest_first (a b : Logs.row) : Prop :=
  String.compare (Logs.date a) (Logs.date b) = Gt
  \/ (Logs.date a = Logs.date b /\ Logs.id b <= Logs.id a).

Definition oldest_first (a b : Logs.row) : Prop :=
  String.compare (Logs.date a) (Logs.date b) = Lt
  \/ (Logs.date a = Logs.date b /\ Logs.id a <= Logs.id b).

Definition oldest_first_by_stop_no (a b : Stops.row * Logs.row) : Prop :=
  String.compare (Logs.date (snd a)) (Logs.date (snd b)) = Lt
  \/ (Logs.date (snd a) = Logs.date (snd b) /\ Logs.id (snd a) < Logs.id (snd b))
  \/ (Logs.date (snd a) = Logs.date (snd b) /\ Logs.id (snd a) = Logs.id (snd b)
      /\ stop_no_asc (Stops.stop_no (fst a)) (Stops.stop_no (fst b)) = true).

(** The filter predicate in the specification's words: each filter that is
    given (a non-empty string) contributes one condition, [date >= from],
    [date <= to], [driver_name LIKE '%driver%']; the conditions are joined by
    AND. *)
Definition given (v : option string) : option string :=
  match v with
  | Some EmptyString | None => None
  | Some x => Some x
  end.

Definition driver_matches (d : string) (l : Logs.row) : bool :=
  match Logs.driver_name l with
  | Some n => like (like_pattern d) n
  | None => false
  end.

Definition filter_predicate (f : filters) (l : Logs.row) : bool :=
  match given (from f) with Some x => negb (String.ltb (Logs.date l) x) | None => true end
  && match given (to f) with Some x => String.leb (Logs.date l) x | None => true end
  && match given (driver f) with Some d => driver_matches d l | None => true end.


(** What the schema keeps true of a database file: the ids of [logs] were
    given out by the sequence, no two rows of [logs] share an id
    ([PRIMARY KEY]), and every stop names a row of [logs]. *)
Definition well_formed (s : db) : Prop :=
  ids_below_seq s
  /\ NoDup (map Logs.id (logs s))
  /\ Forall (fun t => In (Stops.log_id t) (map Logs.id (logs s))) (stops s).

(** The row [POST /api/logs] stores for the empty payload. *)
Definition default_log (i : Z) (now today : string) : Logs.row :=
  Logs.mk i now today (Some "") (Some "") (Some "") (Some "")
    (Some 0%float) (Some 0%float) (Some "") (Some "") (Some 0%float)
    (Some 0%float) (Some 0%float) (Some "") (Some "") (Some 0%float)
    (Some 0%float).

(** The row stored for the stop [{}] of the log [logId]. *)
Definition default_stop (i logId : Z) : Stops.row :=
  Stops.mk i logId (Some 0%float) (Some "") (Some "") (Some "") (Some "")
    (Some "") (Some "") (Some 0%float) (Some "").

(** The numeric and the text columns of [logs] that the payload fills, each
    with the place of its argument in [insLog.run] and with its field. *)
Definition numeric_columns : list (string * nat * (Logs.row -> option float)) :=
  [ ("start_miles", 6%nat, Logs.start_miles);
    ("end_miles", 7%nat, Logs.end_miles);
    ("rate_mile", 10%nat, Logs.rate_mile);
    ("rate_hour", 11%nat, Logs.rate_hour);
    ("total_miles", 12%nat, Logs.total_miles);
    ("total_value_hours", 15%nat, Logs.total_value_hours);
    ("gross_pay", 16%nat, Logs.gross_pay) ].

Definition text_columns : list (string * nat * (Logs.row -> option string)) :=
  [ ("driver_name", 2%nat, Logs.driver_name);
    ("driver_email", 3%nat, Logs.driver_email);
    ("cc_email", 4%nat, Logs.cc_email);
    ("truck_num", 5%nat, Logs.truck_num);
    ("start_time", 8%nat, Logs.start_time);
    ("end_time", 9%nat, Logs.end_time);
    ("total_time", 13%nat, Logs.total_time);
    ("total_detention", 14%nat, Logs.total_detention) ].

(* ================================================================== *)
(** * [requireAdmin] *)

(** [process.env]: the two variables [requireAdmin] reads. *)
Record env : Type := mkenv {
  BASIC_AUTH_USER : option string;
  BASIC_AUTH_PASS : option string
}.

(** What [basicAuth(req)] gives: [undefined], or a name and a password. *)
Definition credentials : Type := option (string * string).

(** A response sent without data: the status, the [WWW-Authenticate] header
    when it is set, and the text. *)
Record refusal : Type := mkrefusal {
  status : Z;
  www_authenticate : option string;
  text : string
}.

Inductive middleware : Type :=
| Next                       (* next() *)
| Sent (r : refusal).        (* return res.status(..).send(..) *)

Definition not_configured : refusal :=
  mkrefusal 500 None "Admin auth not configured.".

(** The header value is [Basic realm=] and [Admin] between double quotes. *)
Definition authentication_required : refusal :=
  mkrefusal 401
    (Some ("Basic realm=" ++ String "034" ("Admin" ++ String "034" EmptyString)))
    "Authentication required.".

(** [!v] for a variable of the environment. *)
Definition unset (v : option string) : bool :=
  match v with
  | Some x => negb (ToBoolean (JStr x))
  | None => true
  end.

(** [a !== v] for a string [a] and a variable of the environment. *)
Definition differs (a : string) (v : option string) : bool :=
  match v with
  | Some x => negb (a =? x)%string
  | None => true
  end.

Definition requireAdmin (creds : credentials) (e : env) : middleware :=
  let u := BASIC_AUTH_USER e in
  let p := BASIC_AUTH_PASS e in
  if unset u || unset p then Sent not_configured
  else
    match creds with
    | None => Sent authentication_required
    | Some (name, pass) =>
        if differs name u || differs pass p then Sent authentication_required
        else Next
    end.

(* ================================================================== *)
(** * Names used by the properties *)

(** A request without [from], [to] and [driver]. *)
Definition no_filters : filters := mkfilters None None None.

(** The database after a request, whatever its answer. *)
Definition submit (now today : string) (body : jsval) (s : db) : db :=
  fst (post_api_logs now today body s).

(** The logs of the dates 2024-01-03, 2024-01-01 and 2024-01-02, submitted
    in this order to an empty database. *)
Definition three_days : db :=
  submit "2024-01-05T08:02:00.000Z" "2024-01-05" (JObj [("date", JStr "2024-01-02")])
    (submit "2024-01-05T08:01:00.000Z" "2024-01-05" (JObj [("date", JStr "2024-01-01")])
       (submit "2024-01-05T08:00:00.000Z" "2024-01-05" (JObj [("date", JStr "2024-01-03")])
          empty_db)).

(** One log with the stop number 2 submitted before the stop number 1. *)
Definition two_stops : db :=
  submit "2024-01-05T08:00:00.000Z" "2024-01-05"
    (JObj [("stops", JArr [JObj [("stop_no", JNum 2)]; JObj [("stop_no", JNum 1)]])])
    empty_db.

(** The logs of four drivers, submitted to an empty database. *)
Definition four_drivers : db :=
  submit "2024-01-05T08:03:00.000Z" "2024-01-05" (JObj [("driver_name", JStr "Az")])
    (submit "2024-01-05T08:02:00.000Z" "2024-01-05" (JObj [("driver_name", JStr "a%z")])
       (submit "2024-01-05T08:01:00.000Z" "2024-01-05" (JObj [("driver_name", JStr "zab")])
          (submit "2024-01-05T08:00:00.000Z" "2024-01-05"
             (JObj [("driver_name", JStr "abcz")]) empty_db))).

(** Two characters that are the same, or the capital and the small form of
    one ASCII letter. *)
Definition same_letter (c x : ascii) : Prop :=
  let n := nat_of_ascii c in
  let m := nat_of_ascii x in
  c = x
  \/ (65 <= n /\ n <= 90 /\ m = n + 32)%nat
  \/ (65 <= m /\ m <= 90 /\ n = m + 32)%nat.


(** A float that is no NaN has its place in one line: the infinities at the
    ends, the finite numbers by sign, exponent and mantissa. *)
Definition rank (x : spec_float) : Z * Z * Z :=
  match x with
  | S754_zero _ | S754_nan => (0, 0, 0)
  | S754_infinity s => (if s then -2 else 2, 0, 0)
  | S754_finite s m e => if s then (-1, - e, - Zpos m) else (1, e, Zpos m)
  end.

Definition rank_lt (a b : Z * Z * Z) : Prop :=
  let '(a1, a2, a3) := a in
  let '(b1, b2, b3) := b in
  a1 < b1 \/ (a1 = b1 /\ (a2 < b2 \/ (a2 = b2 /\ a3 < b3))).

(** The keys of a row of the stop export, in the order of the source. *)
Definition daily_stops_labels : list string :=
  [ "Date"; "Driver Name"; "Truck #"; "Stop #"; "Type"; "Location"; "Arrive";
    "Depart"; "Duration"; "Detention"; "Value (hrs)"; "Grain Phase" ].

(** The properties of the payload that [app.post("/api/logs")] reads. *)
Definition payload_names : list string :=
  [ "date"; "driver_name"; "driver_email"; "cc_email"; "truck_num";
    "start_miles"; "end_miles"; "start_time"; "end_time"; "rate_mile";
    "rate_hour"; "total_miles"; "total_time"; "total_detention";
    "total_value_hours"; "gross_pay"; "stops" ].





(** A text with its ASCII capitals made small. *)
Fixpoint lower (s : string) : string :=
  match s with
  | EmptyString => EmptyString
  | String c rest => String (fold_case c) (lower rest)
  end.


(** The ids [first], [first + 1], ... of [n] rows inserted one after the
    other. *)
Fixpoint ids_from (first : Z) (n : nat) : list Z :=
  match n with
  | O => []
  | S n' => first :: ids_from (first + 1) n'
  end.

(** The row [insLog.run] is asked to store for the payload [d], and the row
    [insStop.run] is asked to store for the element [x] of [stops]. *)
Definition log_row_of (now today : string) (d : jsval) : outcome Logs.row :=
  args <~ insLog_args now today d ;; logs_row args.

Definition stop_row_of (logId : Z) (x : jsval) : outcome Stops.row :=
  args <~ insStop_args x ;; stops_row logId args.

(** The row stored for the element [x] of [stops] under the log [logId]. *)
Definition stored_as (logId : Z) (x : jsval) (t : Stops.row) : Prop :=
  exists args r,
    insStop_args x = Returns args
    /\ stops_row logId args = Returns r
    /\ t = Stops.with_id (Stops.id t) r.

(** What a TEXT column keeps of an input: the input itself when it is a
    string that is not empty, the text of the number when it is a number
    other than 0 and NaN, and the default when the input is absent, [null],
    [false], [0], [NaN] or the empty string.  (Of [true], an array or an
    object nothing is kept here: see [text_input].) *)
Definition kept_text (v : jsval) (default : string) : string :=
  match v with
  | JStr x => if (x =? "")%string then default else x
  | JNum x =>
      if PrimFloat.eqb x 0 || PrimFloat.is_nan x then default
      else sqlite_real_text x
  | _ => default
  end.

(** What a numeric column keeps of an input: 0 when the input is absent,
    [null], [false], [0], [NaN] or the empty string; otherwise the number the
    input is converted to, NULL when that number is NaN. *)
Definition kept_number (v : jsval) : option float :=
  if ToBoolean v then store_real (number_value v) else Some 0%float.

(** What the column [value_hours] keeps of an input. *)
Definition kept_value_hours (v : jsval) : option float :=
  if is_empty_string v then None else kept_number v.

(** The inputs the driver takes for a TEXT column: every value but [true],
    an array and an object. *)
Definition text_input (v : jsval) : bool :=
  match v with
  | JBool b => negb b
  | JArr _ | JObj _ => false
  | _ => true
  end.

(** The inputs [Number] converts. *)
Definition number_input (v : jsval) : bool := negb (to_string_throws v).

(** The log kept for the payload [d], and the stop kept for the element [x]
    of its [stops]. *)
Definition log_of_payload (i : Z) (now today : string) (d : jsval) : Logs.row :=
  Logs.mk i now
    (kept_text (prop d "date") today)
    (Some (kept_text (prop d "driver_name") ""))
    (Some (kept_text (prop d "driver_email") ""))
    (Some (kept_text (prop d "cc_email") ""))
    (Some (kept_text (prop d "truck_num") ""))
    (kept_number (prop d "start_miles"))
    (kept_number (prop d "end_miles"))
    (Some (kept_text (prop d "start_time") ""))
    (Some (kept_text (prop d "end_time") ""))
    (kept_number (prop d "rate_mile"))
    (kept_number (prop d "rate_hour"))
    (kept_number (prop d "total_miles"))
    (Some (kept_text (prop d "total_time") ""))
    (Some (kept_text (prop d "total_detention") ""))
    (kept_number (prop d "total_value_hours"))
    (kept_number (prop d "gross_pay")).

Definition stop_of_payload (i logId : Z) (x : jsval) : Stops.row :=
  Stops.mk i logId
    (kept_number (prop x "stop_no"))
    (Some (kept_text (prop x "type") ""))
    (Some (kept_text (prop x "location") ""))
    (Some (kept_text (prop x "arrive") ""))
    (Some (kept_text (prop x "depart") ""))
    (Some (kept_text (prop x "duration") ""))
    (Some (kept_text (prop x "detention") ""))
    (kept_value_hours (prop x "value_hours"))
    (Some (kept_text (prop x "grain_phase") "")).

(** The stops kept for the elements [items], numbered from [first]. *)
Fixpoint stops_of_payload (first logId : Z) (items : list jsval) : list Stops.row :=
  match items with
  | [] => []
  | x :: rest =>
      stop_of_payload first logId x :: stops_of_payload (first + 1) logId rest
  end.

(** The names of the text and of the numeric fields of a log and of a
    stop. *)
Definition log_text_names : list string :=
  [ "date"; "driver_name"; "driver_email"; "cc_email"; "truck_num";
    "start_time"; "end_time"; "total_time"; "total_detention" ].

Definition log_number_names : list string :=
  [ "start_miles"; "end_miles"; "rate_mile"; "rate_hour"; "total_miles";
    "total_value_hours"; "gross_pay" ].

Definition stop_text_names : list string :=
  [ "type"; "location"; "arrive"; "depart"; "duration"; "detention";
    "grain_phase" ].

Definition stop_number_names : list string := [ "stop_no"; "value_hours" ].

(** A payload, and an element of [stops], whose fields are all inputs the
    handler stores: no text field is [true], an array or an object, no
    numeric field fails to convert, and the element is neither [null] nor
    [undefined]. *)
Definition log_input (d : jsval) : bool :=
  forallb (fun k => text_input (prop d k)) log_text_names
  && forallb (fun k => number_input (prop d k)) log_number_names.

Definition stop_input (x : jsval) : bool :=
  negb (nullish x)
  && forallb (fun k => text_input (prop x k)) stop_text_names
  && forallb (fun k => number_input (prop x k)) stop_number_names.


(* ================================================================== *)
(** * Properties *)

(* ------------------------------------------------------------------ *)
(** ** [ORDER BY] *)

Section OrderBy.
Context {A : Type} (leb : A -> A -> bool).

Lemma insert_by_permutation (x : A) (l : list A) :
  Permutation (x :: l) (insert_by leb x l).
Proof.
  induction l as [|y rest IH]; simpl.
  - apply Permutation_refl.
  - destruct (leb x y).
    + apply Permutation_refl.
    + eapply perm_trans; [apply perm_swap|]. now apply perm_skip.
Qed.

Lemma order_by_permutation (l : list A) : Permutation l (order_by leb l).
Proof.
  induction l as [|x rest IH]; simpl.
  - constructor.
  - eapply perm_trans; [apply perm_skip, IH|]. apply insert_by_permutation.
Qed.

Lemma order_by_In (x : A) (l : list A) : In x (order_by leb l) <-> In x l.
Proof.
  split; apply Permutation_in.
  - apply Permutation_sym, order_by_permutation.
  - apply order_by_permutation.
Qed.

Lemma order_by_length (l : list A) : List.length (order_by leb l) = List.length l.
Proof. symmetry. apply Permutation_length, order_by_permutation. Qed.

Lemma order_by_nil (l : list A) : order_by leb l = [] <-> l = [].
Proof.
  split; intro H.
  - apply Permutation_nil. rewrite <- H. apply Permutation_sym, order_by_permutation.
  - now subst.
Qed.

Hypothesis leb_total : forall a b, leb a b = true \/ leb b a = true.

Lemma insert_by_sorted (x : A) (l : list A) :
  Sorted (fun a b => leb a b = true) l ->
  Sorted (fun a b => leb a b = true) (insert_by leb x l).
Proof.
  induction 1 as [|y rest Hs IH Hhd]; simpl.
  - repeat constructor.
  - destruct (leb x y) eqn:Hxy.
    + constructor; [now constructor | now constructor].
    + constructor; [exact IH|].
      destruct rest as [|z rest']; simpl.
      * constructor. destruct (leb_total x y) as [E|E]; congruence.
      * destruct (leb x z).
        -- constructor. destruct (leb_total x y) as [E|E]; congruence.
        -- constructor. now inversion Hhd.
Qed.

Lemma order_by_sorted (l : list A) :
  Sorted (fun a b => leb a b = true) (order_by leb l).
Proof.
  induction l as [|x rest IH]; simpl.
  - constructor.
  - now apply insert_by_sorted.
Qed.

End OrderBy.

Lemma Sorted_weaken {A} (R R' : A -> A -> Prop) (l : list A) :
  (forall a b, R a b -> R' a b) -> Sorted R l -> Sorted R' l.
Proof.
  intros Himp. induction 1 as [|x rest Hs IH Hhd]; constructor; auto.
  destruct Hhd; constructor; auto.
Qed.

(* ------------------------------------------------------------------ *)
(** ** The order of dates *)

Lemma compare_refl (a : string) : String.compare a a = Eq.
Proof. now apply OrderedTypeEx.String_as_OT.cmp_eq. Qed.

Lemma compare_Gt_Lt (a b : string) : String.compare a b = Gt <-> String.compare b a = Lt.
Proof.
  rewrite (String.compare_antisym b a).
  destruct (String.compare a b); simpl; split; congruence.
Qed.

Lemma compare_Lt_trans (a b c : string) :
  String.compare a b = Lt -> String.compare b c = Lt -> String.compare a c = Lt.
Proof.
  intros H1 H2. apply OrderedTypeEx.String_as_OT.cmp_lt.
  eapply OrderedTypeEx.String_as_OT.lt_trans; apply OrderedTypeEx.String_as_OT.cmp_lt; eassumption.
Qed.

Lemma date_id_asc_spec (a b : Logs.row) : date_id_asc a b = true <-> oldest_first a b.
Proof.
  unfold date_id_asc, oldest_first.
  destruct (String.compare (Logs.date a) (Logs.date b)) eqn:E.
  - apply OrderedTypeEx.String_as_OT.cmp_eq in E. rewrite Z.leb_le. split.
    + intros H. right. now split.
    + intros [H|[_ H]]; [discriminate | exact H].
  - split; auto.
  - split; [discriminate|]. intros [H|[H _]]; [discriminate|].
    rewrite H, compare_refl in E. discriminate.
Qed.

Lemma date_id_desc_spec (a b : Logs.row) : date_id_desc a b = true <-> newest_first a b.
Proof.
  unfold date_id_desc, newest_first.
  destruct (String.compare (Logs.date a) (Logs.date b)) eqn:E.
  - apply OrderedTypeEx.String_as_OT.cmp_eq in E. rewrite Z.leb_le. split.
    + intros H. right. now split.
    + intros [H|[_ H]]; [discriminate | exact H].
  - split; [discriminate|]. intros [H|[H _]]; [discriminate|].
    rewrite H, compare_refl in E. discriminate.
  - split; auto.
Qed.

Lemma date_id_stop_no_asc_spec (a b : Stops.row * Logs.row) :
  date_id_stop_no_asc a b = true <-> oldest_first_by_stop_no a b.
Proof.
  unfold date_id_stop_no_asc, oldest_first_by_stop_no.
  destruct (String.compare (Logs.date (snd a)) (Logs.date (snd b))) eqn:E.
  - apply OrderedTypeEx.String_as_OT.cmp_eq in E.
    destruct (Logs.id (snd a) <? Logs.id (snd b)) eqn:E1;
      [apply Z.ltb_lt in E1 | apply Z.ltb_ge in E1].
    + split; auto.
    + destruct (Logs.id (snd b) <? Logs.id (snd a)) eqn:E2;
        [apply Z.ltb_lt in E2 | apply Z.ltb_ge in E2].
      * split; [discriminate|]. intros [H|[[_ H]|[_ [H _]]]]; [discriminate| lia | lia].
      * split.
        -- intros H. right. right. repeat split; auto. lia.
        -- intros [H|[[_ H]|[_ [_ H]]]]; [discriminate | lia | exact H].
  - split; auto.
  - split; [discriminate|].
    intros [H|[[H _]|[H _]]]; [discriminate | |];
      rewrite H, compare_refl in E; discriminate.
Qed.

Lemma oldest_first_trans (a b c : Logs.row) :
  oldest_first a b -> oldest_first b c -> oldest_first a c.
Proof.
  unfold oldest_first. intros [H1|[H1 H1']] [H2|[H2 H2']].
  - left. eapply compare_Lt_trans; eassumption.
  - left. now rewrite <- H2.
  - left. now rewrite H1.
  - right. split; [congruence | lia].
Qed.

Lemma newest_first_oldest_first (a b : Logs.row) : newest_first a b <-> oldest_first b a.
Proof.
  unfold newest_first, oldest_first. rewrite compare_Gt_Lt.
  split; (intros [H|[H H']]; [now left | right; split; [congruence | exact H']]).
Qed.

Lemma newest_first_trans (a b c : Logs.row) :
  newest_first a b -> newest_first b c -> newest_first a c.
Proof.
  rewrite !newest_first_oldest_first. intros H1 H2.
  eapply oldest_first_trans; eassumption.
Qed.

Lemma date_id_asc_total (a b : Logs.row) :
  date_id_asc a b = true \/ date_id_asc b a = true.
Proof.
  unfold date_id_asc. rewrite (String.compare_antisym (Logs.date b) (Logs.date a)).
  destruct (String.compare (Logs.date a) (Logs.date b)); simpl; auto.
  rewrite !Z.leb_le. lia.
Qed.

Lemma date_id_desc_total (a b : Logs.row) :
  date_id_desc a b = true \/ date_id_desc b a = true.
Proof.
  unfold date_id_desc. rewrite (String.compare_antisym (Logs.date b) (Logs.date a)).
  destruct (String.compare (Logs.date a) (Logs.date b)); simpl; auto.
  rewrite !Z.leb_le. lia.
Qed.

Lemma SFltb_asym (x y : spec_float) : SFltb x y = true -> SFltb y x = false.
Proof.
  unfold SFltb.
  destruct x as [sx| sx| |sx mx ex], y as [sy| sy| |sy my ey]; simpl;
    try (destruct sx); try (destruct sy); simpl; try congruence.
  - rewrite (Z.compare_antisym ex ey).
    destruct (ex ?= ey); simpl; try congruence.
    change (Pos.compare_cont Eq mx my) with (Pos.compare mx my).
    change (Pos.compare_cont Eq my mx) with (Pos.compare my mx).
    rewrite (Pos.compare_antisym mx my).
    destruct (mx ?= my)%positive; simpl; congruence.
  - rewrite (Z.compare_antisym ex ey).
    destruct (ex ?= ey); simpl; try congruence.
    change (Pos.compare_cont Eq mx my) with (Pos.compare mx my).
    change (Pos.compare_cont Eq my mx) with (Pos.compare my mx).
    rewrite (Pos.compare_antisym mx my).
    destruct (mx ?= my)%positive; simpl; congruence.
Qed.

Lemma SFltb_rank (x y : spec_float) :
  x <> S754_nan -> y <> S754_nan ->
  (SFltb x y = true <-> rank_lt (rank x) (rank y)).
Proof.
  intros Hx Hy. unfold SFltb.
  destruct x as [sx| sx| |sx mx ex], y as [sy| sy| |sy my ey];
    try congruence; simpl;
    try (destruct sx); try (destruct sy); simpl;
    try (split; [discriminate | lia]); try (split; [lia | reflexivity]);
    try (split; [reflexivity|lia]).
  - change (Pos.compare_cont Eq mx my) with (Pos.compare mx my).
    destruct (Z.compare_spec ex ey); [destruct (Pos.compare_spec mx my)| |]; simpl;
      split; intros; try discriminate; try reflexivity; try lia.
  - change (Pos.compare_cont Eq mx my) with (Pos.compare mx my).
    destruct (Z.compare_spec ex ey); [destruct (Pos.compare_spec mx my)| |]; simpl;
      split; intros; try discriminate; try reflexivity; try lia.
Qed.

Lemma is_nan_false (x : float) : PrimFloat.is_nan x = false -> Prim2SF x <> S754_nan.
Proof.
  unfold PrimFloat.is_nan. rewrite eqb_spec. intros H E. rewrite E in H. discriminate.
Qed.

Lemma ltb_false_trans (x y z : float) :
  PrimFloat.is_nan x = false -> PrimFloat.is_nan y = false -> PrimFloat.is_nan z = false ->
  PrimFloat.ltb y x = false -> PrimFloat.ltb z y = false -> PrimFloat.ltb z x = false.
Proof.
  intros Hx Hy Hz. apply is_nan_false in Hx, Hy, Hz.
  rewrite !ltb_spec. intros H1 H2.
  destruct (SFltb (Prim2SF z) (Prim2SF x)) eqn:E; [|reflexivity].
  apply SFltb_rank in E; auto.
  assert (N1 : ~ rank_lt (rank (Prim2SF y)) (rank (Prim2SF x))).
  { intro H. apply SFltb_rank in H; auto. congruence. }
  assert (N2 : ~ rank_lt (rank (Prim2SF z)) (rank (Prim2SF y))).
  { intro H. apply SFltb_rank in H; auto. congruence. }
  exfalso.
  destruct (rank (Prim2SF x)) as [[a1 a2] a3], (rank (Prim2SF y)) as [[b1 b2] b3],
    (rank (Prim2SF z)) as [[c1 c2] c3].
  unfold rank_lt in *. lia.
Qed.

Lemma held_Some (c : option float) (x : float) :
  held c = Some x -> PrimFloat.is_nan x = false.
Proof.
  destruct c as [y|]; simpl; [|discriminate].
  destruct (PrimFloat.is_nan y) eqn:E; [discriminate|]. intros H. now inversion H; subst.
Qed.

Lemma SFleb_rank (x y : spec_float) :
  x <> S754_nan -> y <> S754_nan ->
  (SFleb x y = true <-> ~ rank_lt (rank y) (rank x)).
Proof.
  intros Hx Hy. unfold SFleb.
  destruct x as [sx| sx| |sx mx ex], y as [sy| sy| |sy my ey];
    try congruence; simpl;
    try (destruct sx); try (destruct sy); simpl;
    try (split; [intros; lia | reflexivity]);
    try (split; [discriminate | intros H; exfalso; apply H; lia]).
  - change (Pos.compare_cont Eq mx my) with (Pos.compare mx my).
    destruct (Z.compare_spec ex ey); [destruct (Pos.compare_spec mx my)| |]; simpl;
      (split; [intros; try discriminate; lia
              | intros H'; try reflexivity; exfalso; apply H'; lia]).
  - change (Pos.compare_cont Eq mx my) with (Pos.compare mx my).
    destruct (Z.compare_spec ex ey); [destruct (Pos.compare_spec mx my)| |]; simpl;
      (split; [intros; try discriminate; lia
              | intros H'; try reflexivity; exfalso; apply H'; lia]).
Qed.

Lemma stop_no_asc_leb (x y : float) :
  PrimFloat.is_nan x = false -> PrimFloat.is_nan y = false ->
  stop_no_asc (Some x) (Some y) = PrimFloat.leb x y.
Proof.
  intros Hx Hy. unfold stop_no_asc, held. rewrite Hx, Hy.
  apply is_nan_false in Hx, Hy. apply Bool.eq_iff_eq_true.
  rewrite negb_true_iff, leb_spec, (SFleb_rank _ _ Hx Hy), ltb_spec.
  split.
  - intros H1 H2. apply SFltb_rank in H2; auto. congruence.
  - intros H1. destruct (SFltb (Prim2SF y) (Prim2SF x)) eqn:E; [|reflexivity].
    apply SFltb_rank in E; auto. contradiction.
Qed.

Lemma stop_no_asc_total (x y : option float) :
  stop_no_asc x y = true \/ stop_no_asc y x = true.
Proof.
  unfold stop_no_asc. destruct (held x) as [x'|], (held y) as [y'|]; auto.
  destruct (PrimFloat.ltb y' x') eqn:E; simpl; auto.
  right. rewrite ltb_spec in E. apply SFltb_asym in E.
  rewrite <- ltb_spec in E. now rewrite E.
Qed.

Lemma stop_no_asc_trans (x y z : option float) :
  stop_no_asc x y = true -> stop_no_asc y z = true -> stop_no_asc x z = true.
Proof.
  unfold stop_no_asc.
  destruct (held x) as [x'|] eqn:Ex, (held y) as [y'|] eqn:Ey, (held z) as [z'|] eqn:Ez;
    try congruence.
  apply held_Some in Ex, Ey, Ez. rewrite !negb_true_iff. intros H1 H2.
  now apply (ltb_false_trans x' y' z').
Qed.

Lemma date_id_stop_no_asc_total (a b : Stops.row * Logs.row) :
  date_id_stop_no_asc a b = true \/ date_id_stop_no_asc b a = true.
Proof.
  unfold date_id_stop_no_asc.
  rewrite (String.compare_antisym (Logs.date (snd b)) (Logs.date (snd a))).
  destruct (String.compare (Logs.date (snd a)) (Logs.date (snd b))); simpl; auto.
  destruct (Logs.id (snd a) <? Logs.id (snd b)) eqn:E1; auto.
  destruct (Logs.id (snd b) <? Logs.id (snd a)) eqn:E2; auto.
  apply stop_no_asc_total.
Qed.

Lemma oldest_first_by_stop_no_logs (a b : Stops.row * Logs.row) :
  oldest_first_by_stop_no a b -> oldest_first (snd a) (snd b).
Proof.
  unfold oldest_first_by_stop_no, oldest_first.
  intros [H|[[H H']|[H [H' _]]]]; auto; right; split; auto; lia.
Qed.

Lemma oldest_first_by_stop_no_trans (a b c : Stops.row * Logs.row) :
  oldest_first_by_stop_no a b -> oldest_first_by_stop_no b c ->
  oldest_first_by_stop_no a c.
Proof.
  unfold oldest_first_by_stop_no.
  intros [H1|[[H1 H1']|[H1 [H1' H1'']]]] [H2|[[H2 H2']|[H2 [H2' H2'']]]].
  - left. eapply compare_Lt_trans; eassumption.
  - left. now rewrite <- H2.
  - left. now rewrite <- H2.
  - left. now rewrite H1.
  - right. left. split; [congruence | lia].
  - right. left. split; [congruence | lia].
  - left. now rewrite H1.
  - right. left. split; [congruence | lia].
  - right. right. repeat split; [congruence | lia |].
    eapply stop_no_asc_trans; eassumption.
Qed.

(* ------------------------------------------------------------------ *)
(** ** The filter predicate *)

Lemma push_if_given (v : option string) (c : clause) (param : string -> string)
    (w : list clause * list string) :
  push_if v c param w = match given v with Some x => push w c (param x) | None => w end.
Proof. destruct v as [[|a x]|]; reflexivity. Qed.

Lemma selected_admin_where (f : filters) (l : Logs.row) :
  selected (admin_where f) l = filter_predicate f l.
Proof.
  unfold admin_where, filter_predicate, driver_matches. rewrite !push_if_given.
  destruct (given (from f)), (given (to f)), (given (driver f));
    unfold selected, push; cbn -[like like_pattern String.ltb String.leb];
    repeat match goal with
           | |- context [String.ltb ?a ?b] => destruct (String.ltb a b)
           | |- context [String.leb ?a ?b] => destruct (String.leb a b)
           | |- context [Logs.driver_name ?r] =>
               destruct (Logs.driver_name r); cbn -[like like_pattern]
           | |- context [like ?a ?b] => destruct (like a b)
           end; reflexivity.
Qed.

Lemma selected_daily_logs_where (f : filters) (l : Logs.row) :
  selected (daily_logs_where f) l = filter_predicate f l.
Proof. apply selected_admin_where. Qed.

Lemma selected_daily_stops_where (f : filters) (l : Logs.row) :
  selected (daily_stops_where f) l = filter_predicate f l.
Proof.
  unfold daily_stops_where, filter_predicate, driver_matches. rewrite !push_if_given.
  destruct (given (from f)), (given (to f)), (given (driver f));
    unfold selected, push; cbn -[like like_pattern String.ltb String.leb];
    repeat match goal with
           | |- context [String.ltb ?a ?b] => destruct (String.ltb a b)
           | |- context [String.leb ?a ?b] => destruct (String.leb a b)
           | |- context [Logs.driver_name ?r] =>
               destruct (Logs.driver_name r); cbn -[like like_pattern]
           | |- context [like ?a ?b] => destruct (like a b)
           end; reflexivity.
Qed.

Lemma admin_rows_In (f : filters) (s : db) (l : Logs.row) :
  In l (admin_rows f s) <-> In l (logs s) /\ filter_predicate f l = true.
Proof.
  unfold admin_rows. rewrite order_by_In, filter_In, selected_admin_where. tauto.
Qed.

Lemma stops_join_logs_In (s : db) (t : Stops.row) (l : Logs.row) :
  In (t, l) (stops_join_logs s)
  <-> In t (stops s) /\ In l (logs s) /\ Logs.id l = Stops.log_id t.
Proof.
  unfold stops_join_logs. rewrite in_flat_map. split.
  - intros [t' [Ht Hin]]. apply in_map_iff in Hin. destruct Hin as [l' [E Hl]].
    inversion E; subst. apply filter_In in Hl. destruct Hl as [Hl Hid].
    apply Z.eqb_eq in Hid. auto.
  - intros [Ht [Hl Hid]]. exists t. split; [exact Ht|].
    apply in_map, filter_In. split; [exact Hl | now apply Z.eqb_eq].
Qed.

Lemma daily_stops_rows_In (f : filters) (s : db) (t : Stops.row) (l : Logs.row) :
  In (t, l) (daily_stops_rows f s)
  <-> In t (stops s) /\ In l (logs s) /\ Logs.id l = Stops.log_id t
      /\ filter_predicate f l = true.
Proof.
  unfold daily_stops_rows. rewrite order_by_In, filter_In, stops_join_logs_In. simpl.
  rewrite selected_daily_stops_where. tauto.
Qed.

(** C3, as the code has it: the three read paths build the same filter
    predicate (each filter given as a non-empty string contributes one
    condition, joined by AND; no filter, every row); the admin view and the
    log export return the same rows, in different orders; the stop export
    returns one row per stop of those rows, so a selected log is among the
    logs of the stop export exactly when it has a stop. *)
Theorem filter_consistency (f : filters) (s : db) :
  (forall l, selected (admin_where f) l = filter_predicate f l)
  /\ (forall l, selected (daily_logs_where f) l = filter_predicate f l)
  /\ (forall l, selected (daily_stops_where f) l = filter_predicate f l)
  /\ Permutation (admin_rows f s) (daily_logs_rows f s)
  /\ (forall l, In l (admin_rows f s) <-> In l (logs s) /\ filter_predicate f l = true)
  /\ (forall t l, In (t, l) (daily_stops_rows f s)
                 <-> In l (admin_rows f s) /\ In t (stops s)
                     /\ Logs.id l = Stops.log_id t).
Proof.
  split; [apply selected_admin_where|].
  split; [apply selected_daily_logs_where|].
  split; [apply selected_daily_stops_where|].
  split; [|split].
  - unfold admin_rows, daily_logs_rows.
    eapply perm_trans; [apply Permutation_sym, order_by_permutation|].
    apply order_by_permutation.
  - apply admin_rows_In.
  - intros t l. rewrite daily_stops_rows_In, admin_rows_In. tauto.
Qed.

(** C3, as stated, fails: after the empty payload was submitted to an empty
    database, the admin view and the log export return the new log, and the
    stop export returns nothing. *)
Lemma filter_consistency_counterexample :
  let s := fst (post_api_logs "2024-01-01T08:00:00.000Z" "2024-01-01" (JObj []) empty_db) in
  let f := mkfilters None None None in
  map Logs.id (admin_rows f s) = [1]
  /\ map Logs.id (daily_logs_rows f s) = [1]
  /\ daily_stops_rows f s = [].
Proof. repeat split. Qed.

(* ------------------------------------------------------------------ *)
(** ** The order of the results *)

(** C9: each read path returns the rows its filter selects, every one of
    them once, in the order of its query: the admin view newest first (date
    descending, then id descending), the two exports oldest first (date
    ascending, then id ascending), the stop export with the stops of one log
    in ascending stop number, a stop without a number before the others.
    Logs submitted for the dates 2024-01-03,
    2024-01-01 and 2024-01-02 come back as 01, 02, 03 from the log export and
    as 03, 02, 01 from the admin view; stops submitted as number 2 and then
    number 1 come back as 1 and 2 from the stop export. *)
Theorem read_paths_order (f : filters) (s : db) :
  (Permutation (admin_rows f s) (filter (filter_predicate f) (logs s))
   /\ StronglySorted newest_first (admin_rows f s))
  /\ (Permutation (daily_logs_rows f s) (filter (filter_predicate f) (logs s))
      /\ StronglySorted oldest_first (daily_logs_rows f s))
  /\ (Permutation (daily_stops_rows f s)
        (filter (fun r => filter_predicate f (snd r)) (stops_join_logs s))
      /\ StronglySorted oldest_first_by_stop_no (daily_stops_rows f s)
      /\ StronglySorted (fun a b => oldest_first (snd a) (snd b)) (daily_stops_rows f s))
  /\ (forall c, stop_no_asc None c = true)
  /\ (forall x, PrimFloat.is_nan x = false -> stop_no_asc (Some x) None = false)
  /\ (forall x y, PrimFloat.is_nan x = false -> PrimFloat.is_nan y = false ->
                  stop_no_asc (Some x) (Some y) = PrimFloat.leb x y)
  /\ map Logs.date (daily_logs_rows no_filters three_days)
     = ["2024-01-01"; "2024-01-02"; "2024-01-03"]
  /\ map Logs.date (admin_rows no_filters three_days)
     = ["2024-01-03"; "2024-01-02"; "2024-01-01"]
  /\ map (fun r => Stops.stop_no (fst r)) (daily_stops_rows no_filters two_stops)
     = [Some 1%float; Some 2%float].
Proof.
  assert (Hstops : StronglySorted oldest_first_by_stop_no (daily_stops_rows f s)).
  { apply Sorted_StronglySorted; [exact oldest_first_by_stop_no_trans|].
    eapply Sorted_weaken; [apply date_id_stop_no_asc_spec|].
    apply order_by_sorted, date_id_stop_no_asc_total. }
  split; [split|split; [split|split; [split; [|split]|split; [reflexivity|split;
    [intros x Hx; unfold stop_no_asc, held; now rewrite Hx
    |split; [exact stop_no_asc_leb|]]]]]].
  - unfold admin_rows. rewrite (filter_ext _ _ (selected_admin_where f)).
    apply Permutation_sym, order_by_permutation.
  - apply Sorted_StronglySorted; [exact newest_first_trans|].
    eapply Sorted_weaken; [apply date_id_desc_spec|].
    apply order_by_sorted, date_id_desc_total.
  - unfold daily_logs_rows. rewrite (filter_ext _ _ (selected_daily_logs_where f)).
    apply Permutation_sym, order_by_permutation.
  - apply Sorted_StronglySorted; [exact oldest_first_trans|].
    eapply Sorted_weaken; [apply date_id_asc_spec|].
    apply order_by_sorted, date_id_asc_total.
  - unfold daily_stops_rows.
    rewrite (filter_ext _ (fun r => filter_predicate f (snd r))
               (fun r => selected_daily_stops_where f (snd r))).
    apply Permutation_sym, order_by_permutation.
  - exact Hstops.
  - clear - Hstops. induction Hstops as [|a l Hl IH Ha]; constructor; [exact IH|].
    eapply Forall_impl; [|exact Ha]. intros b. apply oldest_first_by_stop_no_logs.
  - repeat split; vm_compute; reflexivity.
Qed.

(* ------------------------------------------------------------------ *)
(** ** The statistics of the admin view *)



Lemma filter_predicate_filter (f : filters) (rows : list Logs.row) :
  filter (selected (admin_where f)) rows = filter (filter_predicate f) rows.
Proof.
  induction rows as [|r rest IH]; simpl; [reflexivity|].
  now rewrite selected_admin_where, IH.
Qed.

Lemma filter_predicate_filter_logs (f : filters) (rows : list Logs.row) :
  filter (selected (daily_logs_where f)) rows = filter (filter_predicate f) rows.
Proof. apply filter_predicate_filter. Qed.


(** The example of the specification: rows with [total_miles] 100, 0 and 50
    give 150 miles. *)
Example admin_stats_example :
  let row i m := Logs.mk i "" "2024-01-01" None None None None None None None None None
                   None m None None None None in
  let s := mkdb [row 1 (Some 100%float); row 2 (Some 0%float); row 3 None;
                 row 4 (Some 50%float)] [] 4 0 in
  view_stats (get_admin (mkfilters None None None) s)
  = mkstats 4 150%float 0%float 0%float.
Proof. reflexivity. Qed.

(* ------------------------------------------------------------------ *)
(** ** The header row of the log export *)

(** C4, as the code has it: the columns of the log export are the keys of its
    first row, so the header row carries the fifteen labels when the filter
    selects a row, and is empty when it selects none. *)
Theorem daily_logs_header_row (f : filters) (s : db) :
  content_disposition (export_daily_logs f s) = "attachment; filename=export.csv"
  /\ content_type (export_daily_logs f s) = "text/csv; charset=utf-8"
  /\ hd [] (csv_rows (export_daily_logs f s))
     = match filter (filter_predicate f) (logs s) with
       | [] => []
       | _ :: _ => map JStr daily_logs_labels
       end
  /\ List.length (csv_rows (export_daily_logs f s))
     = S (List.length (filter (filter_predicate f) (logs s))).
Proof.
  unfold export_daily_logs, sendCsv. cbn [content_disposition content_type csv_rows hd].
  split; [reflexivity|]. split; [reflexivity|]. split.
  - unfold daily_logs_rows.
    rewrite (filter_predicate_filter_logs f (logs s)).
    destruct (filter (filter_predicate f) (logs s)) as [|r rest] eqn:E.
    + reflexivity.
    + destruct (order_by date_id_asc (r :: rest)) as [|r' rest'] eqn:E'.
      * apply order_by_nil in E'. discriminate.
      * reflexivity.
  - cbn [List.length]. rewrite !length_map. unfold daily_logs_rows.
    now rewrite order_by_length, (filter_predicate_filter_logs f (logs s)).
Qed.

(** C4, as stated, fails: with no row selected the export's only row is a
    header row without any label. *)
Lemma daily_logs_header_row_counterexample :
  csv_rows (export_daily_logs (mkfilters None None None) empty_db) = [[]]
  /\ csv_rows (export_daily_logs (mkfilters None None (Some "nobody"))
                (fst (post_api_logs "2024-01-01T08:00:00.000Z" "2024-01-01"
                        (JObj [("driver_name", JStr "Ann")]) empty_db)))
     = [[]].
Proof. split; reflexivity. Qed.

(* ------------------------------------------------------------------ *)
(** ** [LIKE] *)


Lemma like_percent (p s : string) :
  like (String "%" p) s
  = like p s || match s with
                | EmptyString => false
                | String _ s' => like (String "%" p) s'
                end.
Proof. destruct s; reflexivity. Qed.

Lemma like_char (c : ascii) (p : string) (x : ascii) (s : string) :
  c <> "%"%char ->
  like (String c p) (String x s)
  = ((c =? "_")%char || (fold_case c =? fold_case x)%char) && like p s.
Proof.
  intros Hc. apply Ascii.eqb_neq in Hc. cbn [like]. now rewrite Hc.
Qed.

Lemma like_char_empty (c : ascii) (p : string) :
  c <> "%"%char -> like (String c p) EmptyString = false.
Proof.
  intros Hc. apply Ascii.eqb_neq in Hc. cbn [like]. now rewrite Hc.
Qed.








Lemma nat_of_fold_case (c : ascii) :
  nat_of_ascii (fold_case c)
  = if (Nat.leb 65 (nat_of_ascii c) && Nat.leb (nat_of_ascii c) 90)%bool
    then (nat_of_ascii c + 32)%nat else nat_of_ascii c.
Proof.
  unfold fold_case.
  destruct (Nat.leb 65 (nat_of_ascii c) && Nat.leb (nat_of_ascii c) 90)%bool eqn:E;
    [|reflexivity].
  apply andb_true_iff in E. destruct E as [_ E]. apply Nat.leb_le in E.
  apply nat_ascii_embedding. lia.
Qed.

Lemma nat_of_ascii_inj (c x : ascii) : nat_of_ascii c = nat_of_ascii x -> c = x.
Proof.
  intros H. rewrite <- (ascii_nat_embedding c), <- (ascii_nat_embedding x). now rewrite H.
Qed.

Lemma fold_case_same_letter (c x : ascii) :
  fold_case c = fold_case x <-> same_letter c x.
Proof.
  unfold same_letter. cbv zeta. split.
  - intros H. apply (f_equal nat_of_ascii) in H. rewrite !nat_of_fold_case in H.
    destruct (Nat.leb 65 (nat_of_ascii c) && Nat.leb (nat_of_ascii c) 90)%bool eqn:Ec;
      destruct (Nat.leb 65 (nat_of_ascii x) && Nat.leb (nat_of_ascii x) 90)%bool eqn:Ex;
      try (apply andb_true_iff in Ec; destruct Ec as [Ec1 Ec2];
           apply Nat.leb_le in Ec1, Ec2);
      try (apply andb_true_iff in Ex; destruct Ex as [Ex1 Ex2];
           apply Nat.leb_le in Ex1, Ex2).
    + left. apply nat_of_ascii_inj. lia.
    + right. left. lia.
    + right. right. lia.
    + left. now apply nat_of_ascii_inj.
  - intros H. apply nat_of_ascii_inj. rewrite !nat_of_fold_case.
    destruct H as [->|[H|H]]; [reflexivity| |].
    + destruct H as [H1 [H2 H3]]. rewrite H3.
      replace (Nat.leb 65 (nat_of_ascii c) && Nat.leb (nat_of_ascii c) 90)%bool with true
        by (symmetry; apply andb_true_iff; split; apply Nat.leb_le; lia).
      replace (Nat.leb 65 (nat_of_ascii c + 32) && Nat.leb (nat_of_ascii c + 32) 90)%bool
        with false
        by (symmetry; apply andb_false_iff; right; apply Nat.leb_gt; lia).
      reflexivity.
    + destruct H as [H1 [H2 H3]]. rewrite H3.
      replace (Nat.leb 65 (nat_of_ascii x) && Nat.leb (nat_of_ascii x) 90)%bool with true
        by (symmetry; apply andb_true_iff; split; apply Nat.leb_le; lia).
      replace (Nat.leb 65 (nat_of_ascii x + 32) && Nat.leb (nat_of_ascii x + 32) 90)%bool
        with false
        by (symmetry; apply andb_false_iff; right; apply Nat.leb_gt; lia).
      reflexivity.
Qed.



(* ------------------------------------------------------------------ *)
(** ** Referential integrity *)

Lemma log_exists_In (i : Z) (s : db) :
  log_exists i s = true <-> In i (map Logs.id (logs s)).
Proof.
  unfold log_exists. rewrite existsb_exists, in_map_iff.
  split; intros [l [H1 H2]]; exists l.
  - apply Z.eqb_eq in H2. now split.
  - split; [exact H2 | now apply Z.eqb_eq].
Qed.

Lemma with_id_id (i : Z) (r : Logs.row) : Logs.id (Logs.with_id i r) = i.
Proof. reflexivity. Qed.

Lemma stop_with_id_log_id (i : Z) (r : Stops.row) :
  Stops.log_id (Stops.with_id i r) = Stops.log_id r.
Proof. reflexivity. Qed.

Lemma one_row_per_id (rows : list Logs.row) (i : Z) :
  NoDup (map Logs.id rows) -> In i (map Logs.id rows) ->
  List.length (filter (fun l => Logs.id l =? i) rows) = 1%nat.
Proof.
  induction rows as [|r rest IH]; simpl; intros Hnd Hin; [contradiction|].
  inversion Hnd as [|? ? Hnotin Hnd']; subst.
  destruct (Z.eqb_spec (Logs.id r) i) as [E|E].
  - simpl. f_equal. subst i.
    assert (Hnone : forall l, In l rest -> (Logs.id l =? Logs.id r) = false).
    { intros l Hl. apply Z.eqb_neq. intros E. apply Hnotin. rewrite <- E. now apply in_map. }
    clear -Hnone. induction rest as [|x rest IH]; simpl; [reflexivity|].
    rewrite (Hnone x (or_introl eq_refl)). apply IH.
    intros l Hl. apply Hnone. now right.
  - destruct Hin as [Hin|Hin]; [contradiction|]. now apply IH.
Qed.

Lemma well_formed_referential_integrity (s : db) :
  well_formed s -> referential_integrity s.
Proof.
  intros [_ [Hnd Hfk]] t Ht. apply one_row_per_id; [exact Hnd|].
  rewrite Forall_forall in Hfk. now apply Hfk.
Qed.

Lemma well_formed_empty : well_formed empty_db.
Proof. repeat split; constructor. Qed.

Lemma well_formed_insert_log (r : Logs.row) (s : db) :
  well_formed s -> well_formed (fst (insert_log r s)).
Proof.
  intros [Hids [Hnd Hfk]]. unfold well_formed, ids_below_seq, insert_log in *. simpl.
  rewrite Forall_forall in Hids.
  repeat split.
  - apply Forall_app. split.
    + apply Forall_forall. intros l Hl. specialize (Hids l Hl). lia.
    + constructor; [|constructor]. rewrite with_id_id. lia.
  - rewrite map_app. simpl. apply NoDup_app; [exact Hnd | repeat constructor; auto |].
    intros i Hi [E|[]]. subst i.
    apply in_map_iff in Hi. destruct Hi as [l [E Hl]].
    specialize (Hids l Hl). lia.
  - eapply Forall_impl; [|exact Hfk]. simpl.
    intros t Ht. rewrite map_app. apply in_or_app. now left.
Qed.

Lemma well_formed_insert_stop (r : Stops.row) (s s' : db) :
  insert_stop r s = Some s' -> well_formed s -> well_formed s'.
Proof.
  unfold insert_stop. destruct (log_exists (Stops.log_id r) s) eqn:E; [|discriminate].
  intros H [Hids [Hnd Hfk]]. inversion H; subst; clear H.
  unfold well_formed, ids_below_seq. simpl. repeat split; auto.
  apply Forall_app. split; [exact Hfk|].
  constructor; [|constructor]. rewrite stop_with_id_log_id. now apply log_exists_In.
Qed.

Lemma NoDup_map_filter {A B} (g : A -> B) (p : A -> bool) (l : list A) :
  NoDup (map g l) -> NoDup (map g (filter p l)).
Proof.
  induction l as [|x rest IH]; simpl; intros H; [constructor|].
  inversion H as [|? ? Hnotin Hnd]; subst.
  destruct (p x); simpl; [constructor|]; auto.
  intros Hin. apply Hnotin. apply in_map_iff in Hin. destruct Hin as [y [E Hy]].
  apply filter_In in Hy. rewrite <- E. apply in_map. tauto.
Qed.

Lemma well_formed_delete_log (i : Z) (s : db) :
  well_formed s -> well_formed (delete_log i s).
Proof.
  intros [Hids [Hnd Hfk]]. unfold well_formed, ids_below_seq, delete_log in *. simpl.
  rewrite Forall_forall in Hids, Hfk. repeat split.
  - apply Forall_forall. intros l Hl. apply filter_In in Hl. now apply Hids.
  - now apply NoDup_map_filter.
  - apply Forall_forall. intros t Ht. apply filter_In in Ht. destruct Ht as [Ht Hne].
    specialize (Hfk t Ht). apply in_map_iff in Hfk. destruct Hfk as [l [E Hl]].
    apply in_map_iff. exists l. split; [exact E|].
    apply filter_In. split; [exact Hl|]. now rewrite E.
Qed.

Lemma well_formed_step (s s' : db) : storage_step s s' -> well_formed s -> well_formed s'.
Proof.
  intros Hstep. destruct Hstep.
  - apply well_formed_insert_log.
  - now apply well_formed_insert_stop with (r := r).
  - apply well_formed_delete_log.
Qed.

Lemma reachable_well_formed (s : db) : reachable s -> well_formed s.
Proof.
  induction 1 as [|s s' Hs IH Hstep]; [apply well_formed_empty|].
  exact (well_formed_step s s' Hstep IH).
Qed.

Lemma delete_log_removes (i : Z) (s : db) :
  log_exists i (delete_log i s) = false
  /\ (forall l, In l (logs (delete_log i s)) <-> In l (logs s) /\ Logs.id l <> i)
  /\ (forall t, In t (stops (delete_log i s)) <-> In t (stops s) /\ Stops.log_id t <> i).
Proof.
  assert (Hl : forall l, In l (logs (delete_log i s)) <-> In l (logs s) /\ Logs.id l <> i).
  { intros l. unfold delete_log; simpl. rewrite filter_In, negb_true_iff, Z.eqb_neq. tauto. }
  split; [|split; [exact Hl|]].
  - destruct (log_exists i (delete_log i s)) eqn:E; [|reflexivity].
    apply log_exists_In, in_map_iff in E. destruct E as [l [E Hin]].
    apply Hl in Hin. tauto.
  - intros t. unfold delete_log; simpl. rewrite filter_In, negb_true_iff, Z.eqb_neq. tauto.
Qed.

(** What the handlers do to the file, they do through the storage layer. *)
Lemma insLog_run_reachable (args : list jsval) (s : db) :
  reachable s -> reachable (fst (insLog_run args s)).
Proof.
  intros H. unfold insLog_run. destruct (logs_row args) as [r| |]; simpl; auto.
  eapply reachable_step; [exact H|]. apply (step_insert_log r s).
Qed.

Lemma insStop_run_reachable (logId : Z) (args : list jsval) (s : db) :
  reachable s -> reachable (fst (insStop_run logId args s)).
Proof.
  intros H. unfold insStop_run. destruct (stops_row logId args) as [r| |]; simpl; auto.
  destruct (insert_stop r s) as [s'|] eqn:E; simpl; auto.
  eapply reachable_step; [exact H|]. now apply step_insert_stop with (r := r).
Qed.

Lemma for_of_stops_reachable (logId : Z) (rows : list jsval) (s : db) :
  reachable s ->
  reachable (fst (for_of rows
                    (fun x => args <- lift (insStop_args x) ;; insStop_run logId args) s)).
Proof.
  revert s. induction rows as [|x rest IH]; intros s H; simpl; [exact H|].
  unfold bind at 1. unfold bind at 1, lift.
  destruct (insStop_args x) as [args| |]; simpl; auto.
  pose proof (insStop_run_reachable logId args s H) as H'.
  destruct (insStop_run logId args s) as [s' [[]|e|]]; simpl in *; auto.
Qed.

Lemma post_api_logs_reachable (now today : string) (body : jsval) (s : db) :
  reachable s -> reachable (fst (post_api_logs now today body s)).
Proof.
  intros H. unfold post_api_logs, bind, lift.
  destruct (insLog_args now today (jor body (JObj []))) as [args|e|]; simpl; auto.
  pose proof (insLog_run_reachable args s H) as H1.
  destruct (insLog_run args s) as [s1 [logId|e|]]; simpl in *; auto.
  unfold transaction.
  pose proof (for_of_stops_reachable logId (stops_of (jor body (JObj []))) s1 H1) as H2.
  destruct (for_of _ _ s1) as [s2 [[]|e|]]; simpl in *; auto.
Qed.

(** C2: whatever was done to the file through the storage layer, every stop
    names exactly one row of [logs]; a stop that names no row of [logs] is
    refused; deleting a log deletes its stops with it and nothing else; and
    the ingestion handler changes the file through the storage layer
    only. *)
Theorem referential_integrity_enforced (s : db) (H : reachable s) :
  referential_integrity s
  /\ (forall r, log_exists (Stops.log_id r) s = false -> insert_stop r s = None)
  /\ (forall i,
        log_exists i (delete_log i s) = false
        /\ (forall l, In l (logs (delete_log i s)) <-> In l (logs s) /\ Logs.id l <> i)
        /\ (forall t, In t (stops (delete_log i s))
                      <-> In t (stops s) /\ Stops.log_id t <> i)
        /\ referential_integrity (delete_log i s))
  /\ (forall s', storage_step s s' -> referential_integrity s')
  /\ (forall now today body,
        referential_integrity (fst (post_api_logs now today body s))).
Proof.
  pose proof (reachable_well_formed s H) as Hwf.
  split; [now apply well_formed_referential_integrity|].
  split; [intros r E; unfold insert_stop; now rewrite E|].
  split; [|split].
  - intros i. destruct (delete_log_removes i s) as [H1 [H2 H3]].
    repeat split; try apply H2; try apply H3; auto.
    + intros t Ht. apply well_formed_referential_integrity; [|exact Ht].
      now apply well_formed_delete_log.
  - intros s' Hstep. apply well_formed_referential_integrity.
    exact (well_formed_step s s' Hstep Hwf).
  - intros now today body. apply well_formed_referential_integrity, reachable_well_formed.
    now apply post_api_logs_reachable.
Qed.

(** C2 at a file with one log and one stop. *)
Lemma referential_integrity_enforced_witness :
  let s1 := fst (insert_log (default_log 0 "2024-01-01T08:00:00.000Z" "2024-01-01") empty_db) in
  let s2 := mkdb (logs s1) [default_stop 1 1] 1 1 in
  reachable s2
  /\ referential_integrity s2
  /\ insert_stop (default_stop 0 7) s2 = None
  /\ stops (delete_log 1 s2) = [].
Proof.
  cbv zeta.
  assert (R : reachable
                (mkdb (logs (fst (insert_log
                                    (default_log 0 "2024-01-01T08:00:00.000Z" "2024-01-01")
                                    empty_db)))
                      [default_stop 1 1] 1 1)).
  { eapply reachable_step.
    - eapply reachable_step; [apply reachable_empty|].
      apply (step_insert_log (default_log 0 "2024-01-01T08:00:00.000Z" "2024-01-01")).
    - apply (step_insert_stop (default_stop 0 1)). reflexivity. }
  split; [exact R|].
  split; [exact (proj1 (referential_integrity_enforced _ R))|].
  split; reflexivity.
Defined.

(* ------------------------------------------------------------------ *)
(** ** Ingestion *)

Lemma log_exists_insert_log (r : Logs.row) (s : db) :
  log_exists (snd (insert_log r s)) (fst (insert_log r s)) = true.
Proof.
  unfold insert_log, log_exists. simpl. rewrite existsb_app. simpl.
  rewrite Z.eqb_refl. apply orb_true_iff. right. reflexivity.
Qed.

Lemma post_api_logs_empty_payload (now today : string) (s : db) :
  post_api_logs now today (JObj []) s
  = (mkdb (logs s ++ [default_log (logs_seq s + 1) now today]) (stops s)
          (logs_seq s + 1) (stops_seq s),
     Returns (logs_seq s + 1)).
Proof. reflexivity. Qed.

Lemma no_row_above_seq (s : db) (i : Z) :
  well_formed s -> logs_seq s < i ->
  filter (fun l => Logs.id l =? i) (logs s) = []
  /\ filter (fun t => Stops.log_id t =? i) (stops s) = [].
Proof.
  intros [Hids [_ Hfk]] Hi. unfold ids_below_seq in Hids.
  rewrite Forall_forall in Hids, Hfk.
  assert (Hlogs : forall l, In l (logs s) -> (Logs.id l =? i) = false).
  { intros l Hl. apply Z.eqb_neq. specialize (Hids l Hl). lia. }
  assert (Hstops : forall t, In t (stops s) -> (Stops.log_id t =? i) = false).
  { intros t Ht. specialize (Hfk t Ht). apply in_map_iff in Hfk.
    destruct Hfk as [l [E Hl]]. rewrite <- E. now apply Hlogs. }
  split.
  - clear -Hlogs. induction (logs s) as [|l rest IH]; simpl; [reflexivity|].
    rewrite (Hlogs l (or_introl eq_refl)). apply IH. intros x Hx. apply Hlogs. now right.
  - clear -Hstops. induction (stops s) as [|t rest IH]; simpl; [reflexivity|].
    rewrite (Hstops t (or_introl eq_refl)). apply IH. intros x Hx. apply Hstops. now right.
Qed.

(** C7: the empty payload stores exactly one log, with the date of the day,
    every numeric column 0 and every text column empty, and no stop of that
    log; the handler answers the id of the new log. *)
Theorem empty_payload_defaults (now today : string) (s : db) (H : reachable s) :
  let r := post_api_logs now today (JObj []) s in
  let i := logs_seq s + 1 in
  snd r = Returns i
  /\ logs (fst r) = (logs s ++ [default_log i now today])%list
  /\ stops (fst r) = stops s
  /\ filter (fun l => Logs.id l =? i) (logs (fst r)) = [default_log i now today]
  /\ filter (fun t => Stops.log_id t =? i) (stops (fst r)) = []
  /\ Logs.date (default_log i now today) = today
  /\ Logs.created_at (default_log i now today) = now
  /\ Forall (fun c : string * nat * (Logs.row -> option float) =>
               snd c (default_log i now today) = Some 0%float) numeric_columns
  /\ Forall (fun c : string * nat * (Logs.row -> option string) =>
               snd c (default_log i now today) = Some "") text_columns
  /\ post_api_logs now today JUndefined s = r.
Proof.
  cbv zeta. rewrite post_api_logs_empty_payload. cbn [fst snd logs stops].
  destruct (no_row_above_seq s (logs_seq s + 1) (reachable_well_formed s H))
    as [Hlogs Hstops]; [lia|].
  split; [reflexivity|]. split; [reflexivity|]. split; [reflexivity|].
  split; [|split; [exact Hstops|]].
  - rewrite filter_app, Hlogs. cbn [filter default_log Logs.id app].
    now rewrite Z.eqb_refl.
  - split; [reflexivity|]. split; [reflexivity|].
    split; [repeat constructor|]. split; [repeat constructor|]. reflexivity.
Qed.

(** C7 at the empty file. *)
Lemma empty_payload_defaults_witness :
  post_api_logs "2024-01-01T08:00:00.000Z" "2024-01-01" (JObj []) empty_db
  = (mkdb [default_log 1 "2024-01-01T08:00:00.000Z" "2024-01-01"] [] 1 0, Returns 1)
  /\ snd (post_api_logs "2024-01-01T08:00:00.000Z" "2024-01-01" (JObj []) empty_db)
     = Returns (logs_seq empty_db + 1).
Proof.
  split; [reflexivity|].
  exact (proj1 (empty_payload_defaults "2024-01-01T08:00:00.000Z" "2024-01-01"
                  empty_db reachable_empty)).
Defined.

(** A failure among the stops undoes the stops and keeps the log: when the
    handler throws, the file is as it was or has one more log, and in both
    cases the stops it had. *)
Lemma post_api_logs_throws (now today : string) (body : jsval) (s s' : db) (e : exn) :
  post_api_logs now today body s = (s', Throws e) ->
  stops s' = stops s /\ (s' = s \/ exists r, s' = fst (insert_log r s)).
Proof.
  unfold post_api_logs, bind, lift, insLog_run, transaction.
  destruct (insLog_args now today (jor body (JObj []))) as [args| |];
    [|intros H; inversion H; subst; auto | discriminate].
  destruct (logs_row args) as [r| |];
    [|intros H; inversion H; subst; auto | discriminate].
  destruct (insert_log r s) as [s1 logId] eqn:E1.
  destruct (for_of _ _ s1) as [s2 [[]|e'|]]; simpl; try discriminate.
  intros H. inversion H; subst. split.
  - unfold insert_log in E1. inversion E1; subst. reflexivity.
  - right. exists r. unfold insert_log in E1. now inversion E1.
Qed.

Lemma bind_returns {A B} (c : M A) (k : A -> M B) (s s1 : db) (a : A) :
  c s = (s1, Returns a) -> bind c k s = k a s1.
Proof. intros H. unfold bind. now rewrite H. Qed.

Lemma bind_throws {A B} (c : M A) (k : A -> M B) (s s1 : db) (e : exn) :
  c s = (s1, Throws e) -> bind c k s = (s1, Throws e).
Proof. intros H. unfold bind. now rewrite H. Qed.

Lemma transaction_throws {A} (body : M A) (s s1 : db) (e : exn) :
  body s = (s1, Throws e) -> transaction body s = (s, Throws e).
Proof. intros H. unfold transaction. now rewrite H. Qed.

Lemma stops_loop_null_second (logId : Z) (s : db) :
  log_exists logId s = true ->
  for_of [JObj []; JNull]
    (fun x => args <- lift (insStop_args x) ;; insStop_run logId args) s
  = (mkdb (logs s) (stops s ++ [default_stop (stops_seq s + 1) logId])
          (logs_seq s) (stops_seq s + 1),
     Throws TypeError).
Proof.
  intros H. cbn [for_of].
  assert (E : (args <- lift (insStop_args (JObj [])) ;; insStop_run logId args) s
              = (mkdb (logs s) (stops s ++ [default_stop (stops_seq s + 1) logId])
                      (logs_seq s) (stops_seq s + 1),
                 Returns tt)).
  { unfold bind, lift, insStop_run, insert_stop.
    change (insStop_args (JObj []))
      with (Returns [JNum 0%float; JStr ""; JStr ""; JStr ""; JStr ""; JStr "";
                     JStr ""; JNum 0%float; JStr ""]).
    cbv iota beta.
    change (stops_row logId [JNum 0%float; JStr ""; JStr ""; JStr ""; JStr "";
                             JStr ""; JStr ""; JNum 0%float; JStr ""])
      with (Returns (default_stop 0 logId)).
    cbv iota beta. change (Stops.log_id (default_stop 0 logId)) with logId.
    now rewrite H. }
  rewrite (bind_returns _ _ _ _ _ E). reflexivity.
Qed.

(** C1 on the code: a payload whose second stop is [null].  The handler
    throws while it inserts the stops; the first stop is rolled back, and the
    log it inserted before stays in the file. *)
Theorem stop_failure_keeps_log (now today : string) (s : db) :
  let body := JObj [("stops", JArr [JObj []; JNull])] in
  let r := post_api_logs now today body s in
  snd r = Throws TypeError
  /\ logs (fst r) = (logs s ++ [default_log (logs_seq s + 1) now today])%list
  /\ stops (fst r) = stops s.
Proof.
  cbv zeta.
  assert (E : post_api_logs now today (JObj [("stops", JArr [JObj []; JNull])]) s
              = (fst (insert_log (default_log 0 now today) s), Throws TypeError)).
  { unfold post_api_logs.
    erewrite bind_returns by reflexivity.
    rewrite (bind_returns _ _ s (fst (insert_log (default_log 0 now today) s))
               (snd (insert_log (default_log 0 now today) s))) by reflexivity.
    apply bind_throws.
    change (stops_of (jor (JObj [("stops", JArr [JObj []; JNull])]) (JObj [])))
      with [JObj []; JNull].
    eapply transaction_throws.
    apply stops_loop_null_second, log_exists_insert_log. }
  rewrite E. repeat split.
Qed.

(** C1 at the empty file. *)
Example stop_failure_keeps_log_example :
  post_api_logs "2024-01-01T08:00:00.000Z" "2024-01-01"
    (JObj [("stops", JArr [JObj []; JNull])]) empty_db
  = (mkdb [default_log 1 "2024-01-01T08:00:00.000Z" "2024-01-01"] [] 1 0,
     Throws TypeError).
Proof. reflexivity. Qed.

Lemma obind_returns {A B} (c : outcome A) (k : A -> outcome B) (b : B) :
  obind c k = Returns b -> exists a, c = Returns a /\ k a = Returns b.
Proof. destruct c as [a| |]; simpl; try discriminate. intros H. now exists a. Qed.

Ltac invert_obind H :=
  repeat (apply obind_returns in H;
          let a := fresh "a" in
          let E := fresh "E" in
          destruct H as [a [E H]]).

Lemma is_empty_string_spec (v : jsval) : is_empty_string v = true <-> v = JStr "".
Proof.
  destruct v; simpl; try (split; discriminate).
  rewrite String.eqb_eq. split; [intros ->; reflexivity | intros H; now inversion H].
Qed.

(* ------------------------------------------------------------------ *)
(** ** [requireAdmin] *)

Lemma unset_false (v : option string) :
  unset v = false <-> exists x, v = Some x /\ x <> "".
Proof.
  destruct v as [x|]; simpl.
  - rewrite negb_false_iff, negb_true_iff, String.eqb_neq. split.
    + intros H. now exists x.
    + intros [y [E H]]. now inversion E; subst.
  - split; [discriminate | intros [x [E _]]; discriminate].
Qed.

Lemma differs_false (a : string) (v : option string) :
  differs a v = false <-> v = Some a.
Proof.
  destruct v as [x|]; simpl.
  - rewrite negb_false_iff, String.eqb_eq. split; [now intros -> | intros E; now inversion E].
  - split; discriminate.
Qed.

Lemma requireAdmin_cases (creds : credentials) (e : env) :
  requireAdmin creds e
  = if unset (BASIC_AUTH_USER e) || unset (BASIC_AUTH_PASS e) then Sent not_configured
    else match creds with
         | Some (name, pass) =>
             if differs name (BASIC_AUTH_USER e) || differs pass (BASIC_AUTH_PASS e)
             then Sent authentication_required else Next
         | None => Sent authentication_required
         end.
Proof. reflexivity. Qed.

Lemma requireAdmin_next (creds : credentials) (e : env) :
  requireAdmin creds e = Next
  <-> exists u p, BASIC_AUTH_USER e = Some u /\ BASIC_AUTH_PASS e = Some p
                  /\ u <> "" /\ p <> "" /\ creds = Some (u, p).
Proof.
  rewrite requireAdmin_cases. split.
  - destruct (unset (BASIC_AUTH_USER e)) eqn:Eu; [discriminate|].
    destruct (unset (BASIC_AUTH_PASS e)) eqn:Ep; [discriminate|]. cbn [orb].
    destruct creds as [[name pass]|]; [|discriminate].
    destruct (differs name (BASIC_AUTH_USER e)) eqn:Dn; [discriminate|].
    destruct (differs pass (BASIC_AUTH_PASS e)) eqn:Dp; [discriminate|].
    intros _. apply differs_false in Dn, Dp. exists name, pass.
    apply unset_false in Eu, Ep.
    destruct Eu as [u [Hu Hune]], Ep as [p [Hp Hpne]].
    rewrite Hu in Dn. rewrite Hp in Dp. inversion Dn; inversion Dp; subst.
    repeat split; auto.
  - intros [u [p [Hu [Hp [Hune [Hpne ->]]]]]].
    assert (Eu : unset (BASIC_AUTH_USER e) = false) by (apply unset_false; now exists u).
    assert (Ep : unset (BASIC_AUTH_PASS e) = false) by (apply unset_false; now exists p).
    assert (Dn : differs u (BASIC_AUTH_USER e) = false) by now apply differs_false.
    assert (Dp : differs p (BASIC_AUTH_PASS e) = false) by now apply differs_false.
    now rewrite Eu, Ep, Dn, Dp.
Qed.

Lemma requireAdmin_three (creds : credentials) (e : env) :
  requireAdmin creds e = Next
  \/ (requireAdmin creds e = Sent not_configured
      /\ (unset (BASIC_AUTH_USER e) = true \/ unset (BASIC_AUTH_PASS e) = true))
  \/ (requireAdmin creds e = Sent authentication_required
      /\ unset (BASIC_AUTH_USER e) = false /\ unset (BASIC_AUTH_PASS e) = false).
Proof.
  rewrite requireAdmin_cases.
  destruct (unset (BASIC_AUTH_USER e)); [right; left; auto|].
  destruct (unset (BASIC_AUTH_PASS e)); [right; left; auto|]. cbn [orb].
  destruct creds as [[name pass]|]; [|right; right; auto].
  destruct (differs name (BASIC_AUTH_USER e) || differs pass (BASIC_AUTH_PASS e)); auto.
Qed.

(** X1: [requireAdmin] calls [next()] exactly when both variables of the
    environment are set and not empty and the request carries exactly that
    name and that password; it answers 500 exactly when a variable is unset
    or empty, whatever the request carries; in every other case it answers
    401 with the [WWW-Authenticate] header. *)
Theorem requireAdmin_decision (creds : credentials) (e : env) :
  (requireAdmin creds e = Next
   <-> exists u p, BASIC_AUTH_USER e = Some u /\ BASIC_AUTH_PASS e = Some p
                   /\ u <> "" /\ p <> "" /\ creds = Some (u, p))
  /\ (requireAdmin creds e = Sent not_configured
      <-> unset (BASIC_AUTH_USER e) = true \/ unset (BASIC_AUTH_PASS e) = true)
  /\ (requireAdmin creds e = Next
      \/ requireAdmin creds e = Sent not_configured
      \/ requireAdmin creds e = Sent authentication_required)
  /\ status not_configured = 500
  /\ status authentication_required = 401
  /\ www_authenticate not_configured = None
  /\ (exists h, www_authenticate authentication_required = Some h).
Proof.
  split; [apply requireAdmin_next|]. split; [|split].
  - destruct (requireAdmin_three creds e) as [H|[[H U]|[H [U1 U2]]]]; rewrite H.
    + split; [discriminate|]. intros U.
      apply requireAdmin_next in H. destruct H as [u [p [Hu [Hp [Hune [Hpne _]]]]]].
      rewrite Hu, Hp in U. simpl in U.
      apply String.eqb_neq in Hune, Hpne. rewrite Hune, Hpne in U.
      destruct U; discriminate.
    + split; auto.
    + split; [discriminate|]. rewrite U1, U2. intros [U|U]; discriminate.
  - destruct (requireAdmin_three creds e) as [H|[[H _]|[H _]]]; auto.
  - repeat split. now eexists.
Qed.

(* ------------------------------------------------------------------ *)
(** ** What a submission does to the file *)

Lemma stored_as_log_id (logId : Z) (x : jsval) (t : Stops.row) :
  stored_as logId x t -> Stops.log_id t = logId.
Proof.
  intros [args [r [_ [Hr ->]]]]. rewrite stop_with_id_log_id.
  unfold stops_row in Hr.
  destruct args as [|a2 [|a3 [|a4 [|a5 [|a6 [|a7 [|a8 [|a9 [|a10 [|]]]]]]]]]];
    try discriminate.
  invert_obind Hr. now inversion Hr.
Qed.

(** One turn of the loop over the stops. *)
Lemma stop_turn_returns (logId : Z) (x : jsval) (s s' : db) :
  (args <- lift (insStop_args x) ;; insStop_run logId args) s = (s', Returns tt) ->
  exists t,
    stored_as logId x t /\ Stops.id t = stops_seq s + 1
    /\ s' = mkdb (logs s) (stops s ++ [t]) (logs_seq s) (stops_seq s + 1).
Proof.
  unfold bind, lift, insStop_run.
  destruct (insStop_args x) as [args| |] eqn:Ea; try discriminate.
  destruct (stops_row logId args) as [r| |] eqn:Er; try discriminate.
  unfold insert_stop. destruct (log_exists (Stops.log_id r) s); [|discriminate].
  intros H. inversion H; subst; clear H.
  exists (Stops.with_id (stops_seq s + 1) r). repeat split.
  exists args, r. repeat split; assumption.
Qed.

Lemma stops_loop_returns (logId : Z) (rows : list jsval) (s s' : db) :
  for_of rows (fun x => args <- lift (insStop_args x) ;; insStop_run logId args) s
  = (s', Returns tt) ->
  exists new,
    s' = mkdb (logs s) (stops s ++ new) (logs_seq s)
              (stops_seq s + Z.of_nat (List.length rows))
    /\ Forall2 (stored_as logId) rows new
    /\ map Stops.id new = ids_from (stops_seq s + 1) (List.length rows).
Proof.
  revert s. induction rows as [|x rest IH]; intros s H.
  - cbn in H. inversion H; subst. exists []. cbn [List.length Z.of_nat ids_from map].
    rewrite app_nil_r, Z.add_0_r. destruct s'; repeat split. constructor.
  - cbn [for_of] in H. unfold bind at 1 in H.
    destruct ((args <- lift (insStop_args x) ;; insStop_run logId args) s)
      as [s1 [[]| |]] eqn:E1; try discriminate.
    apply stop_turn_returns in E1. destruct E1 as [t [Ht [Hid ->]]].
    apply IH in H. destruct H as [new [-> [Hall Hids]]].
    cbn [logs stops logs_seq stops_seq] in *.
    exists (t :: new). repeat split.
    + rewrite <- app_assoc. cbn [app List.length]. f_equal. lia.
    + now constructor.
    + cbn [map List.length ids_from]. now rewrite Hid, Hids.
Qed.

Lemma bind_unmodelled {A B} (c : M A) (k : A -> M B) (s s1 : db) :
  c s = (s1, Unmodelled) -> bind c k s = (s1, Unmodelled).
Proof. intros H. unfold bind. now rewrite H. Qed.

Lemma transaction_returns {A} (body : M A) (s s1 : db) (a : A) :
  body s = (s1, Returns a) -> transaction body s = (s1, Returns a).
Proof. intros H. unfold transaction. now rewrite H. Qed.

Lemma transaction_unmodelled {A} (body : M A) (s s1 : db) :
  body s = (s1, Unmodelled) -> transaction body s = (s, Unmodelled).
Proof. intros H. unfold transaction. now rewrite H. Qed.

(** The three ways the handler ends: the log is not inserted; the log is
    inserted and the stops are not; the log and every stop are inserted. *)
Lemma post_api_logs_cases (now today : string) (body : jsval) (s : db) :
  let d := jor body (JObj []) in
  let r := post_api_logs now today body s in
  (fst r = s /\ (snd r = Unmodelled \/ exists e, snd r = Throws e))
  \/ (exists row,
        log_row_of now today d = Returns row
        /\ fst r = fst (insert_log row s)
        /\ (snd r = Unmodelled \/ exists e, snd r = Throws e))
  \/ (exists row new,
        log_row_of now today d = Returns row
        /\ snd r = Returns (logs_seq s + 1)
        /\ fst r = mkdb (logs s ++ [Logs.with_id (logs_seq s + 1) row])
                        (stops s ++ new) (logs_seq s + 1)
                        (stops_seq s + Z.of_nat (List.length (stops_of d)))
        /\ Forall2 (stored_as (logs_seq s + 1)) (stops_of d) new
        /\ map Stops.id new = ids_from (stops_seq s + 1) (List.length (stops_of d))).
Proof.
  cbv zeta. unfold post_api_logs, log_row_of. set (d := jor body (JObj [])).
  destruct (insLog_args now today d) as [args|e|] eqn:Hargs; cbn [obind].
  - rewrite (bind_returns _ _ s s args) by reflexivity.
    destruct (logs_row args) as [row|e|] eqn:Hrow.
    + assert (Hins : insLog_run args s
                     = (fst (insert_log row s), Returns (logs_seq s + 1))).
      { unfold insLog_run. now rewrite Hrow. }
      rewrite (bind_returns _ _ _ _ _ Hins). right.
      destruct (for_of (stops_of d)
                  (fun x => args <- lift (insStop_args x) ;;
                            insStop_run (logs_seq s + 1) args)
                  (fst (insert_log row s))) as [s2 [[]|e|]] eqn:E.
      * right. rewrite (bind_returns _ _ _ _ _ (transaction_returns _ _ _ _ E)).
        apply stops_loop_returns in E. destruct E as [new [-> [Hall Hids]]].
        exists row, new. repeat split; assumption.
      * left. rewrite (bind_throws _ _ _ _ _ (transaction_throws _ _ _ _ E)).
        exists row. repeat split. right. now exists e.
      * left. rewrite (bind_unmodelled _ _ _ _ (transaction_unmodelled _ _ _ E)).
        exists row. repeat split. now left.
    + assert (Hins : insLog_run args s = (s, Throws e)).
      { unfold insLog_run. now rewrite Hrow. }
      rewrite (bind_throws _ _ _ _ _ Hins). left. split; [reflexivity|]. right. now exists e.
    + assert (Hins : insLog_run args s = (s, Unmodelled)).
      { unfold insLog_run. now rewrite Hrow. }
      rewrite (bind_unmodelled _ _ _ _ Hins). left. split; [reflexivity|]. now left.
  - rewrite (bind_throws _ _ s s e) by reflexivity.
    left. split; [reflexivity|]. right. now exists e.
  - rewrite (bind_unmodelled _ _ s s) by reflexivity.
    left. split; [reflexivity|]. now left.
Qed.

(* ------------------------------------------------------------------ *)
(** ** What is stored of a payload *)

Lemma bind_text_jor_kept (v : jsval) (dflt : string) (c : option string) :
  bind_text (jor v (JStr dflt)) = Returns c ->
  c = Some (kept_text v dflt) /\ text_input v = true.
Proof.
  unfold jor. destruct v as [| |b|x|x|items|fields]; simpl;
    try (intros E; now inversion E); try discriminate.
  - destruct b; simpl; [discriminate | intros E; now inversion E].
  - destruct ((x =? 0)%float || is_nan x) eqn:F; simpl.
    + intros E; now inversion E.
    + apply orb_false_iff in F. destruct F as [_ F]. rewrite F.
      intros E; now inversion E.
  - destruct (x =? "")%string; simpl; intros E; now inversion E.
Qed.


Lemma falsy_number_input (v : jsval) : ToBoolean v = false -> number_input v = true.
Proof. destruct v; simpl; try reflexivity; discriminate. Qed.

Lemma Number_jor (v : jsval) (x : float) :
  Number (jor v (JNum 0%float)) = Returns x ->
  store_real x = kept_number v /\ number_input v = true.
Proof.
  unfold Number, jor, kept_number. destruct (ToBoolean v) eqn:T.
  - unfold number_input. destruct (to_string_throws v); [discriminate|].
    intros E. inversion E. auto.
  - simpl. intros E. inversion E. split; [reflexivity | now apply falsy_number_input].
Qed.



Lemma log_row_of_returns_inv (now today : string) (d : jsval) (row : Logs.row) :
  log_row_of now today d = Returns row ->
  row = log_of_payload 0 now today d /\ log_input d = true.
Proof.
  unfold log_row_of. intros H. apply obind_returns in H. destruct H as [args [Ea Hr]].
  unfold insLog_args in Ea. invert_obind Ea. inversion Ea; subst args; clear Ea.
  unfold logs_row in Hr. invert_obind Hr. inversion Hr; subst row; clear Hr.
  repeat match goal with
         | E : Number (jor _ _) = Returns _ |- _ =>
             apply Number_jor in E; destruct E as [? ?]
         | E : bind_text (jor _ (JStr _)) = Returns _ |- _ =>
             apply bind_text_jor_kept in E; destruct E as [? ?]
         | E : bind_real (JNum _) = Returns _ |- _ =>
             cbn [bind_real] in E; inversion E; clear E
         | E : bind_text (JStr _) = Returns _ |- _ =>
             cbn [bind_text] in E; inversion E; clear E
         end.
  subst.
  repeat match goal with
         | E : not_null (Some _) = Returns _ |- _ =>
             cbn [not_null] in E; inversion E; clear E
         end.
  subst.
  split.
  - unfold log_of_payload. congruence.
  - unfold log_input, log_text_names, log_number_names. cbn [forallb].
    repeat match goal with E : _ = true |- _ => rewrite E; clear E end. reflexivity.
Qed.




Lemma value_hours_argument (v a : jsval) (c : option float) :
  (if is_empty_string v then Returns JNull
   else y <~ Number (jor v (JNum 0%float)) ;; Returns (JNum y)) = Returns a ->
  bind_real a = Returns c ->
  c = kept_value_hours v /\ number_input v = true.
Proof.
  unfold kept_value_hours. destruct (is_empty_string v) eqn:Ev.
  - intros Ha Hc. inversion Ha; subst a. cbn [bind_real] in Hc. inversion Hc.
    apply is_empty_string_spec in Ev. rewrite Ev. auto.
  - intros Ha Hc. apply obind_returns in Ha. destruct Ha as [y [Hy Ha]].
    inversion Ha; subst a. cbn [bind_real] in Hc. inversion Hc.
    apply Number_jor in Hy. destruct Hy as [-> ?]. auto.
Qed.

Lemma stop_row_of_returns_inv (logId : Z) (x : jsval) (r : Stops.row) :
  stop_row_of logId x = Returns r ->
  r = stop_of_payload 0 logId x /\ stop_input x = true.
Proof.
  unfold stop_row_of. intros H. apply obind_returns in H. destruct H as [args [Ea Hr]].
  unfold insStop_args in Ea. destruct (nullish x) eqn:Hn; [discriminate|].
  invert_obind Ea. inversion Ea; subst args; clear Ea.
  unfold stops_row in Hr. invert_obind Hr. inversion Hr; subst r; clear Hr.
  match goal with
  | Ha : (if is_empty_string _ then _ else _) = Returns ?a,
    Hc : bind_real ?a = Returns _ |- _ =>
      destruct (value_hours_argument _ _ _ Ha Hc) as [? ?]; clear Ha Hc
  end.
  repeat match goal with
         | E : Number (jor _ _) = Returns _ |- _ =>
             apply Number_jor in E; destruct E as [? ?]
         | E : bind_text (jor _ (JStr _)) = Returns _ |- _ =>
             apply bind_text_jor_kept in E; destruct E as [? ?]
         | E : bind_real (JNum _) = Returns _ |- _ =>
             cbn [bind_real] in E; inversion E; clear E
         end.
  subst. split.
  - unfold stop_of_payload. congruence.
  - unfold stop_input, stop_text_names, stop_number_names. cbn [forallb].
    rewrite Hn. cbn [negb andb].
    repeat match goal with E : _ = true |- _ => rewrite E; clear E end. reflexivity.
Qed.


Lemma stored_as_stop_row_of (logId : Z) (x : jsval) (t : Stops.row) :
  stored_as logId x t
  <-> exists r, stop_row_of logId x = Returns r /\ t = Stops.with_id (Stops.id t) r.
Proof.
  unfold stored_as, stop_row_of. split.
  - intros [args [r [Ha [Hr Ht]]]]. exists r. rewrite Ha. now split.
  - intros [r [Hr Ht]]. apply obind_returns in Hr. destruct Hr as [args [Ha Hr]].
    now exists args, r.
Qed.

Lemma stored_as_stop_of_payload (logId : Z) (x : jsval) (t : Stops.row) :
  stored_as logId x t ->
  t = stop_of_payload (Stops.id t) logId x /\ stop_input x = true.
Proof.
  intros H. apply stored_as_stop_row_of in H. destruct H as [r [Hr Ht]].
  apply stop_row_of_returns_inv in Hr. destruct Hr as [-> Hin]. split; [|exact Hin].
  rewrite Ht at 1. reflexivity.
Qed.

Lemma stored_stops_of_payload (logId first : Z) (rows : list jsval) (new : list Stops.row) :
  Forall2 (stored_as logId) rows new ->
  map Stops.id new = ids_from first (List.length rows) ->
  new = stops_of_payload first logId rows /\ forallb stop_input rows = true.
Proof.
  intros H. revert first. induction H as [|x t rows new Hx _ IH]; intros first Hids.
  - split; reflexivity.
  - cbn [map List.length ids_from] in Hids. inversion Hids as [[Hid Hrest]].
    apply stored_as_stop_of_payload in Hx. destruct Hx as [Ht Hin].
    destruct (IH _ Hrest) as [-> Hall]. cbn [stops_of_payload forallb].
    rewrite Hin, Hall. split; [|reflexivity]. f_equal. rewrite Ht at 1. reflexivity.
Qed.

(** What the handler stores and answers, when it answers. *)
Lemma post_api_logs_answered (now today : string) (body : jsval) (s : db) (i : Z) :
  let d := jor body (JObj []) in
  snd (post_api_logs now today body s) = Returns i ->
  i = logs_seq s + 1
  /\ log_input d = true
  /\ forallb stop_input (stops_of d) = true
  /\ fst (post_api_logs now today body s)
     = mkdb (logs s ++ [log_of_payload i now today d])
            (stops s ++ stops_of_payload (stops_seq s + 1) i (stops_of d))
            i (stops_seq s + Z.of_nat (List.length (stops_of d))).
Proof.
  cbv zeta. intros H.
  destruct (post_api_logs_cases now today body s)
    as [[_ [E|[e E]]]|[[row [_ [_ [E|[e E]]]]]|[row [new [Hrow [E [Hs [Hall Hids]]]]]]]];
    try (rewrite E in H; discriminate).
  rewrite E in H. inversion H; subst i; clear H.
  apply log_row_of_returns_inv in Hrow. destruct Hrow as [-> Hin].
  destruct (stored_stops_of_payload _ _ _ _ Hall Hids) as [-> Hstops].
  rewrite Hs. repeat split; assumption.
Qed.







Lemma Forall2_stops_of_payload (P : jsval -> Stops.row -> Prop) (logId : Z) :
  (forall first x, P x (stop_of_payload first logId x)) ->
  forall rows first, Forall2 P rows (stops_of_payload first logId rows).
Proof.
  intros HP rows. induction rows as [|x rest IH]; intros first; cbn [stops_of_payload];
    constructor; auto.
Qed.








(** X3: when the handler answers an id, that id is the next id of [logs];
    the file has exactly one more log, stored under that id with what the
    columns keep of the payload's fields, and one more stop for every element
    of the payload's [stops], in the order of the payload, each under the new
    log and with the next ids of [stops]. *)
Theorem post_api_logs_returns (now today : string) (body : jsval) (s : db) (i : Z)
    (H : snd (post_api_logs now today body s) = Returns i) :
  let d := jor body (JObj []) in
  let s' := fst (post_api_logs now today body s) in
  i = logs_seq s + 1
  /\ logs_seq s' = i
  /\ logs s' = (logs s ++ [log_of_payload i now today d])%list
  /\ log_row_of now today d = Returns (log_of_payload 0 now today d)
  /\ stops s' = (stops s ++ stops_of_payload (stops_seq s + 1) i (stops_of d))%list
  /\ Forall2 (stored_as i) (stops_of d) (stops_of_payload (stops_seq s + 1) i (stops_of d))
  /\ Forall2 (fun x t => t = stop_of_payload (Stops.id t) i x /\ Stops.log_id t = i)
             (stops_of d) (stops_of_payload (stops_seq s + 1) i (stops_of d))
  /\ map Stops.id (stops_of_payload (stops_seq s + 1) i (stops_of d))
     = ids_from (stops_seq s + 1) (List.length (stops_of d))
  /\ stops_seq s' = stops_seq s + Z.of_nat (List.length (stops_of d)).
Proof.
  cbv zeta.
  destruct (post_api_logs_cases now today body s)
    as [[_ [E|[e E]]]|[[row [_ [_ [E|[e E]]]]]|[row [new [Hrow [E [Hs [Hall Hids]]]]]]]];
    try (rewrite E in H; discriminate).
  rewrite E in H. inversion H; subst i; clear H.
  destruct (log_row_of_returns_inv _ _ _ _ Hrow) as [-> _].
  destruct (stored_stops_of_payload _ _ _ _ Hall Hids) as [-> _].
  rewrite Hs. cbn [logs stops logs_seq stops_seq].
  repeat split; try assumption; try reflexivity.
  apply Forall2_stops_of_payload. intros first x. split; reflexivity.
Qed.

(** X3 at a payload with two stops and the empty file. *)
Lemma post_api_logs_returns_witness :
  let body := JObj [("driver_name", JStr "Ann"); ("total_miles", JStr "120.5");
                    ("stops", JArr [JObj []; JObj [("stop_no", JNum 2%float)]])] in
  let r := post_api_logs "2024-01-01T08:00:00.000Z" "2024-01-01" body empty_db in
  snd r = Returns 1
  /\ logs_seq (fst r) = 1
  /\ map Stops.id (stops (fst r)) = [1; 2]
  /\ map Logs.driver_name (logs (fst r)) = [Some "Ann"]
  /\ map Logs.total_miles (logs (fst r)) = [Some 120.5%float]
  /\ map Stops.stop_no (stops (fst r)) = [Some 0%float; Some 2%float].
Proof.
  cbv zeta. split; [reflexivity|]. split; [|repeat split].
  exact (proj1 (proj2 (post_api_logs_returns "2024-01-01T08:00:00.000Z" "2024-01-01"
                         (JObj [("driver_name", JStr "Ann");
                                ("total_miles", JStr "120.5");
                                ("stops", JArr [JObj [];
                                                JObj [("stop_no", JNum 2%float)]])])
                         empty_db 1 eq_refl))).
Defined.

(** X4: whatever the payload and however the handler ends, it only appends:
    the logs and the stops the file had stay as they were and in their
    order; at most one log is added; stops are added only when the handler
    answers an id, and then one for every element of the payload's [stops];
    and when no log is added the file is unchanged. *)
Theorem post_api_logs_appends (now today : string) (body : jsval) (s : db) :
  let d := jor body (JObj []) in
  let r := post_api_logs now today body s in
  exists added_logs added_stops,
    logs (fst r) = (logs s ++ added_logs)%list
    /\ stops (fst r) = (stops s ++ added_stops)%list
    /\ (List.length added_logs <= 1)%nat
    /\ (added_stops = []
        \/ (snd r = Returns (logs_seq s + 1)
            /\ List.length added_stops = List.length (stops_of d)))
    /\ (added_logs = [] -> fst r = s)
    /\ (added_logs = [] \/ logs_seq (fst r) = logs_seq s + 1).
Proof.
  cbv zeta.
  destruct (post_api_logs_cases now today body s)
    as [[Hs _]|[[row [_ [Hs _]]]|[row [new [_ [E [Hs [Hall _]]]]]]]]; rewrite Hs.
  - exists [], []. rewrite !app_nil_r. repeat split; auto.
  - exists [Logs.with_id (logs_seq s + 1) row], []. unfold insert_log.
    cbn [fst logs stops logs_seq]. rewrite app_nil_r.
    repeat split; auto. discriminate.
  - exists [Logs.with_id (logs_seq s + 1) row], new.
    cbn [logs stops logs_seq]. repeat split; auto.
    + right. split; [exact E|]. symmetry. eapply Forall2_length; eassumption.
    + discriminate.
Qed.

(** X5: in a file reached through the storage layer no two logs share an id,
    the id given to a new log is larger than every id in the file, and
    deleting a log does not free its id: after a deletion the next log still
    gets the id it would have got without it. *)
Theorem log_ids_fresh (s : db) (H : reachable s) (r : Logs.row) :
  NoDup (map Logs.id (logs s))
  /\ Forall (fun l => Logs.id l < snd (insert_log r s)) (logs s)
  /\ Logs.id (last (logs (fst (insert_log r s))) r) = snd (insert_log r s)
  /\ (forall j, snd (insert_log r (delete_log j s)) = snd (insert_log r s))
  /\ (forall j, Forall (fun l => Logs.id l < snd (insert_log r (delete_log j s)))
                       (logs s)).
Proof.
  destruct (reachable_well_formed s H) as [Hids [Hnd _]].
  unfold ids_below_seq in Hids.
  assert (Hlt : Forall (fun l => Logs.id l < logs_seq s + 1) (logs s)).
  { eapply Forall_impl; [|exact Hids]. simpl. intros l Hl. lia. }
  split; [exact Hnd|]. split; [exact Hlt|]. split; [|split].
  - unfold insert_log. cbn [fst snd logs]. now rewrite last_last.
  - reflexivity.
  - intros j. exact Hlt.
Qed.

(** X5 at the file that holds the log of one empty payload. *)
Lemma log_ids_fresh_witness :
  let s := fst (insert_log (default_log 0 "2024-01-01T08:00:00.000Z" "2024-01-01")
                  empty_db) in
  reachable s
  /\ snd (insert_log (default_log 0 "" "") (delete_log 1 s)) = 2
  /\ NoDup (map Logs.id (logs s)).
Proof.
  cbv zeta.
  assert (R : reachable
                (fst (insert_log (default_log 0 "2024-01-01T08:00:00.000Z" "2024-01-01")
                        empty_db))).
  { eapply reachable_step; [apply reachable_empty|].
    apply (step_insert_log (default_log 0 "2024-01-01T08:00:00.000Z" "2024-01-01")). }
  split; [exact R|]. split; [reflexivity|].
  exact (proj1 (log_ids_fresh _ R (default_log 0 "" ""))).
Defined.

Lemma Forall_payload_names (P : string -> Prop) :
  Forall P payload_names ->
  P "date" /\ P "driver_name" /\ P "driver_email" /\ P "cc_email" /\ P "truck_num"
  /\ P "start_miles" /\ P "end_miles" /\ P "start_time" /\ P "end_time"
  /\ P "rate_mile" /\ P "rate_hour" /\ P "total_miles" /\ P "total_time"
  /\ P "total_detention" /\ P "total_value_hours" /\ P "gross_pay" /\ P "stops".
Proof.
  unfold payload_names. intros H.
  repeat match goal with
         | H : Forall _ (_ :: _) |- _ => inversion H; subst; clear H
         end.
  repeat split; assumption.
Qed.

(** X6: the handler reads nothing of the payload but the seventeen
    properties it names: two payloads that agree on them are handled alike,
    so a payload cannot choose the [id] or the [created_at] of its log. *)
Theorem post_api_logs_reads_named_fields (now today : string) (body body' : jsval)
    (s : db)
    (H : Forall (fun k => prop (jor body (JObj [])) k = prop (jor body' (JObj [])) k)
                payload_names) :
  post_api_logs now today body s = post_api_logs now today body' s.
Proof.
  apply Forall_payload_names in H. cbv beta in H.
  decompose [and] H; clear H.
  unfold post_api_logs.
  assert (Ea : insLog_args now today (jor body (JObj []))
               = insLog_args now today (jor body' (JObj []))).
  { unfold insLog_args.
    repeat match goal with E : prop _ _ = prop _ _ |- _ => rewrite E end.
    reflexivity. }
  assert (Es : stops_of (jor body (JObj [])) = stops_of (jor body' (JObj []))).
  { unfold stops_of.
    repeat match goal with E : prop _ _ = prop _ _ |- _ => rewrite E end.
    reflexivity. }
  now rewrite Ea, Es.
Qed.

(** X6 at two payloads that differ in [id] and [created_at] only. *)
Lemma post_api_logs_reads_named_fields_witness :
  post_api_logs "2024-01-01T08:00:00.000Z" "2024-01-01"
    (JObj [("id", JNum 99%float); ("created_at", JStr "1999-01-01");
           ("driver_name", JStr "Ann")]) empty_db
  = post_api_logs "2024-01-01T08:00:00.000Z" "2024-01-01"
      (JObj [("driver_name", JStr "Ann")]) empty_db.
Proof.
  apply post_api_logs_reads_named_fields. repeat constructor.
Defined.

(* ------------------------------------------------------------------ *)
(** ** A submission and the read paths *)

Lemma filter_predicate_no_filters (l : Logs.row) : filter_predicate no_filters l = true.
Proof. reflexivity. Qed.

Lemma filter_all {A} (p : A -> bool) (l : list A) :
  (forall x, p x = true) -> filter p l = l.
Proof.
  intros H. induction l as [|x rest IH]; simpl; [reflexivity|]. now rewrite H, IH.
Qed.

Lemma admin_rows_no_filters (s : db) :
  admin_rows no_filters s = order_by date_id_desc (logs s).
Proof.
  unfold admin_rows. f_equal. apply filter_all. intros l.
  rewrite selected_admin_where. apply filter_predicate_no_filters.
Qed.

Lemma daily_logs_rows_no_filters (s : db) :
  daily_logs_rows no_filters s = order_by date_id_asc (logs s).
Proof.
  unfold daily_logs_rows. f_equal. apply filter_all. intros l.
  rewrite selected_daily_logs_where. apply filter_predicate_no_filters.
Qed.

Lemma daily_stops_rows_no_filters (s : db) :
  daily_stops_rows no_filters s = order_by date_id_stop_no_asc (stops_join_logs s).
Proof.
  unfold daily_stops_rows. f_equal. apply filter_all. intros [t l]. cbn [snd].
  rewrite selected_daily_stops_where. apply filter_predicate_no_filters.
Qed.

(** X7: a log the handler answered an id for is listed: without filters the
    admin view and the log export both contain a row with that id, and the
    view counts one day more than before the submission. *)
Theorem submitted_log_is_listed (now today : string) (body : jsval) (s : db) (i : Z)
    (H : snd (post_api_logs now today body s) = Returns i) :
  let s' := fst (post_api_logs now today body s) in
  (exists l, Logs.id l = i
             /\ In l (admin_rows no_filters s')
             /\ In l (daily_logs_rows no_filters s')
             /\ In l (view_rows (get_admin no_filters s')))
  /\ days (view_stats (get_admin no_filters s'))
     = S (days (view_stats (get_admin no_filters s)))
  /\ List.length (csv_rows (export_daily_logs no_filters s'))
     = S (List.length (csv_rows (export_daily_logs no_filters s))).
Proof.
  cbv zeta.
  destruct (post_api_logs_cases now today body s)
    as [[_ [E|[e E]]]|[[row [_ [_ [E|[e E]]]]]|[row [new [_ [E [Hs _]]]]]]];
    try (rewrite E in H; discriminate).
  rewrite E in H. inversion H; subst i; clear H.
  assert (Hlogs : logs (fst (post_api_logs now today body s))
                  = (logs s ++ [Logs.with_id (logs_seq s + 1) row])%list)
    by now rewrite Hs.
  split; [|split].
  - exists (Logs.with_id (logs_seq s + 1) row).
    assert (Hin : In (Logs.with_id (logs_seq s + 1) row)
                     (logs (fst (post_api_logs now today body s)))).
    { rewrite Hlogs. apply in_or_app. right. now left. }
    split; [reflexivity|].
    unfold get_admin. cbn [view_rows].
    rewrite admin_rows_no_filters, daily_logs_rows_no_filters, !order_by_In. auto.
  - unfold get_admin, admin_stats. cbn [view_stats days].
    rewrite !admin_rows_no_filters, !order_by_length, Hlogs, length_app.
    cbn [List.length]. lia.
  - unfold export_daily_logs, sendCsv. cbn [csv_rows List.length].
    rewrite !length_map, !daily_logs_rows_no_filters, !order_by_length, Hlogs, length_app.
    cbn [List.length]. lia.
Qed.

(** X7 at the empty payload and the empty file. *)
Lemma submitted_log_is_listed_witness :
  let r := post_api_logs "2024-01-01T08:00:00.000Z" "2024-01-01" (JObj []) empty_db in
  snd r = Returns 1
  /\ days (view_stats (get_admin no_filters (fst r))) = 1%nat.
Proof.
  cbv zeta. split; [reflexivity|].
  exact (proj1 (proj2 (submitted_log_is_listed "2024-01-01T08:00:00.000Z" "2024-01-01"
                         (JObj []) empty_db 1 eq_refl))).
Defined.

Lemma join_one_row_per_stop (rows : list Logs.row) (ts : list Stops.row) :
  (forall t, In t ts ->
     List.length (filter (fun l => Logs.id l =? Stops.log_id t) rows) = 1%nat) ->
  List.length
    (flat_map (fun t => map (fun l => (t, l))
                            (filter (fun l => Logs.id l =? Stops.log_id t) rows)) ts)
  = List.length ts.
Proof.
  induction ts as [|t rest IH]; intros H; simpl; [reflexivity|].
  rewrite length_app, length_map, (H t (or_introl eq_refl)), IH; [reflexivity|].
  intros t' Ht'. apply H. now right.
Qed.

(** X8: for a file reached through the storage layer the stop export without
    filters has exactly one data row for every stop of the file, each stop
    joined with its one log. *)
Theorem stop_export_one_row_per_stop (s : db) (H : reachable s) :
  List.length (daily_stops_rows no_filters s) = List.length (stops s)
  /\ List.length (csv_rows (export_daily_stops no_filters s))
     = S (List.length (stops s))
  /\ (forall t, In t (stops s) ->
        exists l, In (t, l) (daily_stops_rows no_filters s)
                  /\ forall l', In (t, l') (daily_stops_rows no_filters s) -> l' = l).
Proof.
  pose proof (reachable_well_formed s H) as Hwf.
  pose proof (well_formed_referential_integrity s Hwf) as Hri.
  assert (Hlen : List.length (daily_stops_rows no_filters s) = List.length (stops s)).
  { rewrite daily_stops_rows_no_filters, order_by_length.
    apply join_one_row_per_stop. exact Hri. }
  split; [exact Hlen|]. split.
  - unfold export_daily_stops, sendCsv. cbn [csv_rows List.length].
    now rewrite !length_map, Hlen.
  - intros t Ht. specialize (Hri t Ht).
    destruct (filter (fun l => Logs.id l =? Stops.log_id t) (logs s))
      as [|l [|l2 rest]] eqn:E; try discriminate.
    assert (Hl : In l (filter (fun l => Logs.id l =? Stops.log_id t) (logs s)))
      by (rewrite E; now left).
    apply filter_In in Hl. destruct Hl as [Hl Hid]. apply Z.eqb_eq in Hid.
    exists l. split.
    + apply daily_stops_rows_In. repeat split; auto.
    + intros l' Hl'. apply daily_stops_rows_In in Hl'.
      destruct Hl' as [_ [Hin' [Hid' _]]].
      assert (Hf : In l' (filter (fun l => Logs.id l =? Stops.log_id t) (logs s))).
      { apply filter_In. split; [exact Hin' | now apply Z.eqb_eq]. }
      rewrite E in Hf. destruct Hf as [Hf|[]]. now symmetry.
Qed.

(** X8 at the file with one log and one stop. *)
Lemma stop_export_one_row_per_stop_witness :
  let s := mkdb [default_log 1 "2024-01-01T08:00:00.000Z" "2024-01-01"]
                [default_stop 1 1] 1 1 in
  reachable s /\ List.length (daily_stops_rows no_filters s) = 1%nat.
Proof.
  cbv zeta.
  assert (R : reachable (mkdb [default_log 1 "2024-01-01T08:00:00.000Z" "2024-01-01"]
                              [default_stop 1 1] 1 1)).
  { eapply reachable_step.
    - eapply reachable_step; [apply reachable_empty|].
      apply (step_insert_log (default_log 0 "2024-01-01T08:00:00.000Z" "2024-01-01")).
    - apply (step_insert_stop (default_stop 0 1)). reflexivity. }
  split; [exact R|].
  exact (proj1 (stop_export_one_row_per_stop _ R)).
Defined.

(* ------------------------------------------------------------------ *)
(** ** Filtering and ordering *)

Section FilterOrder.
Context {A : Type} (leb : A -> A -> bool) (p : A -> bool).
Hypothesis leb_total : forall a b, leb a b = true \/ leb b a = true.
Hypothesis leb_trans : forall a b c, leb a b = true -> leb b c = true -> leb a c = true.

Lemma insert_by_first (x : A) (l : list A) :
  Forall (fun y => leb x y = true) l -> insert_by leb x l = x :: l.
Proof.
  destruct l as [|y rest]; [reflexivity|]. simpl. intros H.
  inversion H; subst. now rewrite H2.
Qed.

Lemma filter_insert_by (x : A) (l : list A) :
  StronglySorted (fun a b => leb a b = true) l ->
  filter p (insert_by leb x l)
  = if p x then insert_by leb x (filter p l) else filter p l.
Proof.
  induction 1 as [|y rest Hs IH Hy].
  - simpl. destruct (p x); reflexivity.
  - cbn [insert_by]. destruct (leb x y) eqn:Exy.
    + change (filter p (x :: y :: rest))
        with (if p x then x :: filter p (y :: rest) else filter p (y :: rest)).
      destruct (p x); [|reflexivity].
      symmetry. apply insert_by_first.
      assert (Hall : Forall (fun z => leb x z = true) (y :: rest)).
      { constructor; [exact Exy|]. eapply Forall_impl; [|exact Hy].
        simpl. intros z Hz. now apply leb_trans with y. }
      apply Forall_forall. intros z Hz. rewrite Forall_forall in Hall.
      apply Hall. apply filter_In in Hz. tauto.
    + cbn [filter]. rewrite IH. destruct (p y); destruct (p x); try reflexivity.
      cbn [insert_by]. now rewrite Exy.
Qed.

Lemma order_by_strongly_sorted (l : list A) :
  StronglySorted (fun a b => leb a b = true) (order_by leb l).
Proof.
  apply Sorted_StronglySorted.
  - intros a b c. apply leb_trans.
  - now apply order_by_sorted.
Qed.

Lemma order_by_filter (l : list A) :
  order_by leb (filter p l) = filter p (order_by leb l).
Proof.
  induction l as [|x rest IH]; [reflexivity|].
  cbn [order_by fold_right filter].
  change (fold_right (insert_by leb) [] rest) with (order_by leb rest).
  rewrite filter_insert_by by apply order_by_strongly_sorted.
  destruct (p x); [|exact IH]. cbn [fold_right].
  change (fold_right (insert_by leb) [] (filter p rest))
    with (order_by leb (filter p rest)).
  now rewrite IH.
Qed.

End FilterOrder.

Lemma date_id_desc_trans (a b c : Logs.row) :
  date_id_desc a b = true -> date_id_desc b c = true -> date_id_desc a c = true.
Proof. rewrite !date_id_desc_spec. apply newest_first_trans. Qed.

Lemma date_id_asc_trans (a b c : Logs.row) :
  date_id_asc a b = true -> date_id_asc b c = true -> date_id_asc a c = true.
Proof. rewrite !date_id_asc_spec. apply oldest_first_trans. Qed.

Lemma filter_length_le {A} (p : A -> bool) (l : list A) :
  (List.length (filter p l) <= List.length l)%nat.
Proof.
  induction l as [|x rest IH]; simpl; [lia|]. destruct (p x); simpl; lia.
Qed.

(** X9: a filter only takes rows away from what the same path returns
    without filters, and leaves the others in their order: the rows of the
    admin view and of the log export under a filter are the rows they return
    without filters, with those the filter rejects left out; so no filter
    makes the view count more days. *)
Theorem filtered_rows_of_unfiltered (f : filters) (s : db) :
  admin_rows f s = filter (filter_predicate f) (admin_rows no_filters s)
  /\ daily_logs_rows f s = filter (filter_predicate f) (daily_logs_rows no_filters s)
  /\ (days (view_stats (get_admin f s))
      <= days (view_stats (get_admin no_filters s)))%nat.
Proof.
  assert (Ha : admin_rows f s = filter (filter_predicate f) (admin_rows no_filters s)).
  { rewrite admin_rows_no_filters. unfold admin_rows.
    rewrite filter_predicate_filter.
    apply order_by_filter; [apply date_id_desc_total | apply date_id_desc_trans]. }
  split; [exact Ha|]. split.
  - rewrite daily_logs_rows_no_filters. unfold daily_logs_rows.
    rewrite filter_predicate_filter_logs.
    apply order_by_filter; [apply date_id_asc_total | apply date_id_asc_trans].
  - unfold get_admin, admin_stats. cbn [view_stats days].
    rewrite Ha. apply filter_length_le.
Qed.

(* ------------------------------------------------------------------ *)
(** ** The rows of the exports *)

Lemma daily_logs_cells (r : Logs.row) :
  map (fun c => prop (JObj (daily_logs_out r)) c) daily_logs_labels
  = map snd (daily_logs_out r).
Proof. reflexivity. Qed.

Lemma daily_stops_cells (r : Stops.row * Logs.row) :
  map (fun c => prop (JObj (daily_stops_out r)) c) daily_stops_labels
  = map snd (daily_stops_out r).
Proof. destruct r as [t l]. reflexivity. Qed.

Lemma daily_stops_keys (r : Stops.row * Logs.row) :
  map fst (daily_stops_out r) = daily_stops_labels.
Proof. destruct r as [t l]. reflexivity. Qed.

Lemma export_daily_logs_rows (f : filters) (s : db) :
  csv_rows (export_daily_logs f s)
  = match daily_logs_rows f s with
    | [] => [[]]
    | _ :: _ =>
        map JStr daily_logs_labels
        :: map (fun r => map snd (daily_logs_out r)) (daily_logs_rows f s)
    end.
Proof.
  unfold export_daily_logs, sendCsv. cbn [csv_rows].
  destruct (daily_logs_rows f s) as [|r rest]; [reflexivity|].
  change (keys_of_first (map daily_logs_out (r :: rest))) with daily_logs_labels.
  f_equal. rewrite map_map. apply map_ext. intros x. apply daily_logs_cells.
Qed.

Lemma export_daily_stops_rows (f : filters) (s : db) :
  csv_rows (export_daily_stops f s)
  = match daily_stops_rows f s with
    | [] => [[]]
    | _ :: _ =>
        map JStr daily_stops_labels
        :: map (fun r => map snd (daily_stops_out r)) (daily_stops_rows f s)
    end.
Proof.
  unfold export_daily_stops, sendCsv. cbn [csv_rows].
  destruct (daily_stops_rows f s) as [|r rest]; [reflexivity|].
  cbn [map keys_of_first]. rewrite (daily_stops_keys r).
  f_equal. rewrite daily_stops_cells. f_equal.
  rewrite map_map. apply map_ext. intros x. apply daily_stops_cells.
Qed.

Lemma daily_logs_out_length (r : Logs.row) :
  List.length (map snd (daily_logs_out r)) = List.length daily_logs_labels.
Proof. reflexivity. Qed.

Lemma daily_stops_out_length (r : Stops.row * Logs.row) :
  List.length (map snd (daily_stops_out r)) = List.length daily_stops_labels.
Proof. destruct r. reflexivity. Qed.

(** X10: each export writes its header row and then one row for every row
    its query returns, in the order of the query; the cells of a row are that
    row's values in the order of the header, every column of the header being
    found in every row, so all rows are as long as the header.  The header
    of the stop export carries its twelve labels when the query returns a
    row, and no label when it returns none. *)
Theorem export_csv_body (f : filters) (s : db) :
  csv_rows (export_daily_logs f s)
  = match daily_logs_rows f s with
    | [] => [[]]
    | _ :: _ =>
        map JStr daily_logs_labels
        :: map (fun r => map snd (daily_logs_out r)) (daily_logs_rows f s)
    end
  /\ csv_rows (export_daily_stops f s)
     = match daily_stops_rows f s with
       | [] => [[]]
       | _ :: _ =>
           map JStr daily_stops_labels
           :: map (fun r => map snd (daily_stops_out r)) (daily_stops_rows f s)
       end
  /\ Forall (fun row => List.length row
                        = List.length (hd [] (csv_rows (export_daily_logs f s))))
            (csv_rows (export_daily_logs f s))
  /\ Forall (fun row => List.length row
                        = List.length (hd [] (csv_rows (export_daily_stops f s))))
            (csv_rows (export_daily_stops f s))
  /\ content_type (export_daily_stops f s) = content_type (export_daily_logs f s)
  /\ content_disposition (export_daily_stops f s)
     = content_disposition (export_daily_logs f s).
Proof.
  split; [apply export_daily_logs_rows|]. split; [apply export_daily_stops_rows|].
  split; [|split; [|split; reflexivity]].
  - rewrite export_daily_logs_rows.
    destruct (daily_logs_rows f s) as [|r rest]; [repeat constructor|].
    cbn [hd]. constructor; [reflexivity|].
    apply Forall_forall. intros row Hrow. apply in_map_iff in Hrow.
    destruct Hrow as [x [<- _]]. rewrite (length_map JStr). apply daily_logs_out_length.
  - rewrite export_daily_stops_rows.
    destruct (daily_stops_rows f s) as [|r rest]; [repeat constructor|].
    cbn [hd]. constructor; [reflexivity|].
    apply Forall_forall. intros row Hrow. apply in_map_iff in Hrow.
    destruct Hrow as [x [<- _]]. rewrite (length_map JStr). apply daily_stops_out_length.
Qed.









(* ------------------------------------------------------------------ *)
(** ** [LIKE] and the case of letters *)

Lemma fold_case_idempotent (c : ascii) : fold_case (fold_case c) = fold_case c.
Proof. destruct c as [[] [] [] [] [] [] [] []]; reflexivity. Qed.

Lemma fold_case_percent (c : ascii) : (fold_case c =? "%")%char = (c =? "%")%char.
Proof. destruct c as [[] [] [] [] [] [] [] []]; reflexivity. Qed.

Lemma fold_case_underscore (c : ascii) : (fold_case c =? "_")%char = (c =? "_")%char.
Proof. destruct c as [[] [] [] [] [] [] [] []]; reflexivity. Qed.

Lemma lower_app (a b : string) : (lower (a ++ b) = lower a ++ lower b)%string.
Proof. induction a as [|x a IH]; cbn [append lower]; [reflexivity | now rewrite IH]. Qed.

Lemma like_lower_text (p s : string) : like p (lower s) = like p s.
Proof.
  revert s. induction p as [|c p IH]; intros s.
  - destruct s; reflexivity.
  - destruct (Ascii.eqb_spec c "%") as [->|Hc].
    + induction s as [|x s IHs]; [reflexivity|].
      rewrite (like_percent p (lower (String x s))), (like_percent p (String x s)).
      cbn [lower]. rewrite IHs.
      change (String (fold_case x) (lower s)) with (lower (String x s)).
      now rewrite IH.
    + destruct s as [|x s]; cbn [lower].
      * reflexivity.
      * rewrite !like_char by exact Hc. now rewrite fold_case_idempotent, IH.
Qed.

Lemma like_lower_pattern (p s : string) : like (lower p) s = like p s.
Proof.
  revert s. induction p as [|c p IH]; intros s; [reflexivity|].
  cbn [lower]. destruct (Ascii.eqb_spec c "%") as [->|Hc].
  - change (fold_case "%") with "%"%char.
    induction s as [|x s IHs].
    + rewrite !like_percent. now rewrite IH.
    + rewrite (like_percent (lower p)), (like_percent p). now rewrite IH, IHs.
  - assert (Hf : fold_case c <> "%"%char).
    { intros E. apply Hc. apply Ascii.eqb_eq. rewrite <- fold_case_percent.
      now apply Ascii.eqb_eq. }
    destruct s as [|x s].
    + now rewrite !like_char_empty.
    + rewrite !like_char by assumption.
      now rewrite fold_case_underscore, fold_case_idempotent, IH.
Qed.

Lemma like_pattern_lower (d : string) : like_pattern (lower d) = lower (like_pattern d).
Proof.
  unfold like_pattern. cbn [append lower]. now rewrite lower_app.
Qed.

Lemma driver_matches_lower (d : string) (l : Logs.row) :
  driver_matches (lower d) l = driver_matches d l.
Proof.
  unfold driver_matches. destruct (Logs.driver_name l) as [n|]; [|reflexivity].
  now rewrite like_pattern_lower, like_lower_pattern.
Qed.

Lemma filter_predicate_lower (from_ to_ : option string) (d : string) (l : Logs.row) :
  filter_predicate (mkfilters from_ to_ (Some (lower d))) l
  = filter_predicate (mkfilters from_ to_ (Some d)) l.
Proof.
  unfold filter_predicate. cbn [from to driver]. f_equal.
  destruct d as [|c d]; [reflexivity|]. cbn [lower given].
  apply (driver_matches_lower (String c d)).
Qed.

Lemma fold_case_other (c : ascii) :
  (nat_of_ascii c < 65 \/ 90 < nat_of_ascii c)%nat -> fold_case c = c.
Proof.
  intros H. unfold fold_case.
  replace (Nat.leb 65 (nat_of_ascii c) && Nat.leb (nat_of_ascii c) 90)%bool with false;
    [reflexivity|].
  symmetry. apply andb_false_iff.
  destruct H as [H|H]; [left | right]; apply Nat.leb_gt; lia.
Qed.

(** X12: the [driver] filter does not look at the case of ASCII letters,
    neither in the filter nor in the names: LIKE takes each of the capitals
    A to Z for its small letter and every other character for itself, so
    the filter [ann] selects the name [JOANNE] and the filter [ANN] the name
    [joanne]; a filter and the same filter in small letters select the same
    rows on the three read paths, and a name matches a filter exactly when
    the name in small letters does. *)
Theorem driver_filter_ignores_case (from_ to_ : option string) (d : string) (s : db) :
  let f := mkfilters from_ to_ (Some d) in
  let g := mkfilters from_ to_ (Some (lower d)) in
  (forall l, filter_predicate g l = filter_predicate f l)
  /\ admin_rows g s = admin_rows f s
  /\ daily_logs_rows g s = daily_logs_rows f s
  /\ daily_stops_rows g s = daily_stops_rows f s
  /\ (forall n, like (like_pattern d) (lower n) = like (like_pattern d) n)
  /\ lower "ABCDEFGHIJKLMNOPQRSTUVWXYZ" = "abcdefghijklmnopqrstuvwxyz"
  /\ (forall c, (nat_of_ascii c < 65 \/ 90 < nat_of_ascii c)%nat -> fold_case c = c)
  /\ (forall c x, (fold_case c =? fold_case x)%char = true <-> same_letter c x)
  /\ like (like_pattern "ann") "JOANNE" = true
  /\ like (like_pattern "ANN") "joanne" = true
  /\ like "%ann%" "ANN" = true
  /\ like (like_pattern "ann") "JOAN" = false
  /\ map Logs.driver_name (admin_rows (mkfilters None None (Some "AZ")) four_drivers)
     = [Some "Az"]
  /\ map Logs.driver_name (admin_rows (mkfilters None None (Some "Z")) four_drivers)
     = [Some "Az"; Some "a%z"; Some "zab"; Some "abcz"].
Proof.
  cbv zeta.
  split; [apply filter_predicate_lower|].
  split; [|split; [|split; [|split; [|split; [reflexivity|split;
    [exact fold_case_other|split; [|repeat split; vm_compute; reflexivity]]]]]]].
  - unfold admin_rows. f_equal. apply filter_ext. intros l.
    rewrite !selected_admin_where. apply filter_predicate_lower.
  - unfold daily_logs_rows. f_equal. apply filter_ext. intros l.
    rewrite !selected_daily_logs_where. apply filter_predicate_lower.
  - unfold daily_stops_rows. f_equal. apply filter_ext. intros [t l]. cbn [snd].
    rewrite !selected_daily_stops_where. apply filter_predicate_lower.
  - intros n. apply like_lower_text.
  - intros c x. rewrite Ascii.eqb_eq. apply fold_case_same_letter.
Qed.

(* ------------------------------------------------------------------ *)
(** ** More on submissions *)

Lemma stored_as_not_nullish (logId : Z) (x : jsval) (t : Stops.row) :
  stored_as logId x t -> nullish x = false.
Proof.
  intros [args [r [Ha _]]]. unfold insStop_args in Ha.
  destruct (nullish x); [discriminate | reflexivity].
Qed.

(** X13: a payload whose [stops] holds [null] (or [undefined]) anywhere is
    never answered with an id, and none of its stops is stored, not even
    those that come before the [null]. *)
Theorem null_stop_refuses_all_stops (now today : string) (body : jsval) (s : db)
    (H : existsb nullish (stops_of (jor body (JObj []))) = true) :
  let r := post_api_logs now today body s in
  stops (fst r) = stops s
  /\ stops_seq (fst r) = stops_seq s
  /\ (snd r = Unmodelled \/ exists e, snd r = Throws e).
Proof.
  cbv zeta. apply existsb_exists in H. destruct H as [x [Hx Hnull]].
  destruct (post_api_logs_cases now today body s)
    as [[Hs Ho]|[[row [_ [Hs Ho]]]|[row [new [_ [_ [_ [Hall _]]]]]]]].
  - rewrite Hs. auto.
  - rewrite Hs. unfold insert_log. cbn [fst stops stops_seq]. auto.
  - exfalso.
    assert (Hno : forall rows new', Forall2 (stored_as (logs_seq s + 1)) rows new' ->
                                    In x rows -> False).
    { intros rows new' Hf. induction Hf as [|y t rows' new'' Hy _ IH]; intros Hin.
      - contradiction.
      - destruct Hin as [->|Hin]; [|now apply IH].
        apply stored_as_not_nullish in Hy. congruence. }
    exact (Hno _ _ Hall Hx).
Qed.

(** X13 at the payload [{ stops: [{}, null] }] and the empty file. *)
Lemma null_stop_refuses_all_stops_witness :
  let body := JObj [("stops", JArr [JObj []; JNull])] in
  existsb nullish (stops_of (jor body (JObj []))) = true
  /\ stops (fst (post_api_logs "2024-01-01T08:00:00.000Z" "2024-01-01" body empty_db))
     = stops empty_db.
Proof.
  cbv zeta. split; [reflexivity|].
  exact (proj1 (null_stop_refuses_all_stops "2024-01-01T08:00:00.000Z" "2024-01-01"
                  (JObj [("stops", JArr [JObj []; JNull])]) empty_db eq_refl)).
Defined.

(** X14: two submissions handled one after the other and both answered get
    ids that follow each other. *)
Theorem successive_ids (now today now' today' : string) (a b : jsval) (s : db)
    (i j : Z)
    (Ha : snd (post_api_logs now today a s) = Returns i)
    (Hb : snd (post_api_logs now' today' b (fst (post_api_logs now today a s)))
          = Returns j) :
  j = i + 1.
Proof.
  destruct (post_api_logs_cases now today a s)
    as [[_ [E|[e E]]]|[[row [_ [_ [E|[e E]]]]]|[row [new [_ [E [Hs _]]]]]]];
    try (rewrite E in Ha; discriminate).
  rewrite E in Ha. inversion Ha; subst i; clear Ha.
  destruct (post_api_logs_cases now' today' b (fst (post_api_logs now today a s)))
    as [[_ [E'|[e E']]]|[[row' [_ [_ [E'|[e E']]]]]|[row' [new' [_ [E' _]]]]]];
    try (rewrite E' in Hb; discriminate).
  rewrite E' in Hb. inversion Hb; subst j; clear Hb.
  rewrite Hs. reflexivity.
Qed.

(** X14 at two empty payloads and the empty file. *)
Lemma successive_ids_witness :
  let s1 := fst (post_api_logs "2024-01-01T08:00:00.000Z" "2024-01-01" (JObj [])
                   empty_db) in
  snd (post_api_logs "2024-01-02T08:00:00.000Z" "2024-01-02" (JObj []) s1) = Returns 2
  /\ 2 = 1 + 1.
Proof.
  cbv zeta. split; [reflexivity|].
  exact (successive_ids "2024-01-01T08:00:00.000Z" "2024-01-01"
           "2024-01-02T08:00:00.000Z" "2024-01-02" (JObj []) (JObj []) empty_db 1 2
           eq_refl eq_refl).
Defined.

(** X15: the log of an answered submission carries the time of the server as
    [created_at], whatever the payload says.  Its [date] is the payload's
    [date] as it is written when that is a non-empty string; the text SQLite
    keeps of the number when it is a number other than 0 and NaN, so
    [20240101.0] for the number 20240101; and the date of the day when the
    payload's [date] is absent, [null], [false], [0], [NaN] or the empty
    string.  A payload whose [date] is [true], an array or an object is not
    answered by this development. *)
Theorem stored_dates (now today : string) (body : jsval) (s : db) (i : Z)
    (H : snd (post_api_logs now today body s) = Returns i) :
  let d := jor body (JObj []) in
  exists l,
    In l (logs (fst (post_api_logs now today body s)))
    /\ Logs.id l = i
    /\ Logs.created_at l = now
    /\ Logs.date l
       = match prop d "date" with
         | JStr x => if (x =? "")%string then today else x
         | JNum x =>
             if PrimFloat.eqb x 0 || PrimFloat.is_nan x then today
             else sqlite_real_text x
         | _ => today
         end
    /\ text_input (prop d "date") = true
    /\ sqlite_real_text 20240101%float = "20240101.0"
    /\ sqlite_real_text 1.5%float = "1.5"
    /\ sqlite_real_text 1e21%float = "1.0e+21".
Proof.
  cbv zeta. apply post_api_logs_answered in H. destruct H as [Hi [Hlog [_ Hs]]].
  exists (log_of_payload i now today (jor body (JObj []))). rewrite Hs. cbn [logs].
  split; [apply in_or_app; right; now left|].
  split; [reflexivity|]. split; [reflexivity|]. split; [reflexivity|].
  split; [|repeat split].
  unfold log_input, log_text_names in Hlog. cbn [forallb] in Hlog.
  apply andb_true_iff in Hlog. destruct Hlog as [Hlog _].
  apply andb_true_iff in Hlog. now destruct Hlog as [Hlog _].
Qed.

(** X15 at two payloads and the empty file: a date given as a string, and a
    date given as a number. *)
Lemma stored_dates_witness :
  let now := "2024-01-02T08:00:00.000Z" in
  let today := "2024-01-02" in
  let a := JObj [("date", JStr "2023-12-31"); ("created_at", JStr "1999-01-01")] in
  let b := JObj [("date", JNum 20240101%float)] in
  snd (post_api_logs now today a empty_db) = Returns 1
  /\ map Logs.date (logs (fst (post_api_logs now today a empty_db))) = ["2023-12-31"]
  /\ map Logs.created_at (logs (fst (post_api_logs now today a empty_db))) = [now]
  /\ snd (post_api_logs now today b empty_db) = Returns 1
  /\ map Logs.date (logs (fst (post_api_logs now today b empty_db))) = ["20240101.0"]
  /\ text_input (prop (jor a (JObj [])) "date") = true.
Proof.
  cbv zeta. do 5 (split; [reflexivity|]).
  destruct (stored_dates "2024-01-02T08:00:00.000Z" "2024-01-02"
              (JObj [("date", JStr "2023-12-31"); ("created_at", JStr "1999-01-01")])
              empty_db 1 eq_refl) as [l [_ [_ [_ [_ [Hd _]]]]]].
  exact Hd.
Defined.
